(** * organize_files.py: the extractor and the organizer

    A shallow embedding of [src/organize_files.py].

    - Python [str] values are Rocq [string]s; a character is one of the 256
      code points below U+0100 (Rocq's [ascii]).  Python's Unicode tables
      restricted to that range give the classes [py_isspace] (what
      [str.strip()] removes) and [is_word] (the regular-expression class
      [\w]).
    - [re.match] is a backtracking matcher over the constructs the two
      patterns of the script use; greedy repetition and ordered alternation
      behave as in Python, and group 1 is recorded as a span of positions.
    - The scanning loop of [extract_file_info] is a [while] over a record of
      its local variables, with fuel.
    - [process_file] and [main] run in a state-and-exception monad over the
      files written (a [gmap] from file to content, two paths that name one
      file sharing a key) and the console.  What a run gets from outside,
      the documents it finds and reads and what the operating system
      refuses, is an environment of that run. *)

From Stdlib Require Import Ascii String Sorted.
From stdpp Require Import base option list strings gmap.

Local Open Scope stdpp_scope.

(** ** Characters *)

Definition code (c : ascii) : nat := nat_of_ascii c.

Definition between (lo hi n : nat) : bool := (lo <=? n) && (n <=? hi).

(** [str.isspace] on code points below 256: what [str.strip()] strips. *)
Definition py_isspace (c : ascii) : bool :=
  let n := code c in
  between 9 13 n || between 28 32 n || (n =? 133) || (n =? 160).

(** The class [\w] of [re] on [str] patterns, on code points below 256:
    alphanumeric characters and the underscore. *)
Definition is_word (c : ascii) : bool :=
  let n := code c in
  between 48 57 n || between 65 90 n || (n =? 95) || between 97 122 n
  || (n =? 170) || between 178 179 n || (n =? 181) || between 185 186 n
  || between 188 190 n || between 192 214 n || between 216 246 n
  || between 248 255 n.

(** The class [[\w\/-]]. *)
Definition is_path_char (c : ascii) : bool :=
  is_word c || Ascii.eqb c "/" || Ascii.eqb c "-".

(** ** String operations of Python used by the script *)

Definition nonempty (s : string) : bool :=
  match s with EmptyString => false | String _ _ => true end.

Fixpoint lstrip_by (p : ascii -> bool) (s : string) : string :=
  match s with
  | EmptyString => EmptyString
  | String c s' => if p c then lstrip_by p s' else s
  end.

Fixpoint rstrip_by (p : ascii -> bool) (s : string) : string :=
  match s with
  | EmptyString => EmptyString
  | String c s' =>
      match rstrip_by p s' with
      | EmptyString => if p c then EmptyString else String c EmptyString
      | r => String c r
      end
  end.

Definition strip_by (p : ascii -> bool) (s : string) : string :=
  rstrip_by p (lstrip_by p s).

(** [s.strip()] *)
Definition py_strip (s : string) : string := strip_by py_isspace s.

Fixpoint char_in (chars : string) (c : ascii) : bool :=
  match chars with
  | EmptyString => false
  | String d more => Ascii.eqb c d || char_in more c
  end.

(** [s.strip(chars)] *)
Definition py_strip_chars (chars s : string) : string :=
  strip_by (char_in chars) s.

(** [s.startswith(pre)] *)
Definition startswith (s pre : string) : bool := String.prefix pre s.

(** [s.split(sep)] for a one-character separator: never an empty list. *)
Fixpoint py_split (sep : ascii) (s : string) : list string :=
  match s with
  | EmptyString => [EmptyString]
  | String c s' =>
      if Ascii.eqb c sep then EmptyString :: py_split sep s'
      else match py_split sep s' with
           | cur :: more => String c cur :: more
           | [] => [String c EmptyString]
           end
  end.

(** [sep.join(parts)] *)
Fixpoint py_join (sep : string) (parts : list string) : string :=
  match parts with
  | [] => EmptyString
  | [x] => x
  | x :: more => x +:+ sep +:+ py_join sep more
  end.

Definition newline : ascii := "010".
Definition NL : string := String newline EmptyString.

(** Truth value of a variable holding [None] or a [str]. *)
Definition truthy (o : option string) : bool :=
  match o with
  | Some s => nonempty s
  | None => false
  end.

(** ** Regular expressions: the fragment the patterns use *)

Inductive regex : Type :=
| Chr (c : ascii)              (* one literal character *)
| Bos                          (* [^], the start of the subject *)
| Cat (r1 r2 : regex)          (* concatenation *)
| Alt (r1 r2 : regex)          (* [r1|r2], left first *)
| Plus (p : ascii -> bool)     (* [cls+], greedy *)
| Grp (r : regex).             (* capturing group 1 *)

(** A cursor into the subject: the position and what remains from there. *)
Record cursor : Type := Cursor { pos : nat; rest : string }.

(** The span of group 1, when the group took part in the match. *)
Definition capture : Type := option (nat * nat).

Section Matcher.
Context {R : Type}.

(** [cls*], greedy: extend as far as possible, give characters back one
    at a time when what follows fails. *)
Fixpoint greedy (p : ascii -> bool) (s : string) (n : nat)
    (k : cursor -> option R) : option R :=
  match s with
  | String c s' =>
      if p c then
        match greedy p s' (S n) k with
        | Some r => Some r
        | None => k (Cursor n s)
        end
      else k (Cursor n s)
  | EmptyString => k (Cursor n s)
  end.

Fixpoint run (r : regex) (cur : cursor) (cap : capture)
    (k : cursor -> capture -> option R) : option R :=
  match r with
  | Chr c =>
      match rest cur with
      | String d s' => if Ascii.eqb d c then k (Cursor (S (pos cur)) s') cap else None
      | EmptyString => None
      end
  | Bos => if pos cur =? 0 then k cur cap else None
  | Cat r1 r2 => run r1 cur cap (fun cur' cap' => run r2 cur' cap' k)
  | Alt r1 r2 =>
      match run r1 cur cap k with
      | Some x => Some x
      | None => run r2 cur cap k
      end
  | Plus p =>
      match rest cur with
      | String d s' =>
          if p d then greedy p s' (S (pos cur)) (fun cur' => k cur' cap) else None
      | EmptyString => None
      end
  | Grp r1 =>
      run r1 cur cap (fun cur' _ => k cur' (Some (pos cur, pos cur')))
  end.
End Matcher.

(** [re.match(pattern, s)]: a match anchored at position 0, not required to
    reach the end of [s].  The result is the span of group 1. *)
Definition re_match (pattern : regex) (s : string) : option capture :=
  run pattern (Cursor 0 s) None (fun _ cap => Some cap).

(** [match.group(1)]: the text of the span, [None] when the group did not
    take part. *)
Definition group1 (m : capture) (s : string) : option string :=
  match m with
  | Some (b, e) => Some (String.substring b (e - b) s)
  | None => None
  end.

(** A literal word as a regular expression. *)
Fixpoint lit (first : ascii) (more : string) : regex :=
  match more with
  | EmptyString => Chr first
  | String c more' => Cat (Chr first) (lit c more')
  end.

(** [(?:apps|packages)\/[\w\/-]+\.\w+] *)
Definition path_re : regex :=
  Cat (Alt (lit "a" "pps") (lit "p" "ackages"))
    (Cat (Chr "/") (Cat (Plus is_path_char) (Cat (Chr ".") (Plus is_word)))).

(** [file_patterns], in the order of the script:
    [(?:\/\/|#) ((?:apps|packages)\/[\w\/-]+\.\w+)] and
    [^((?:apps|packages)\/[\w\/-]+\.\w+)]. *)
Definition comment_pattern : regex :=
  Cat (Alt (lit "/" "/") (Chr "#")) (Cat (Chr " ") (Grp path_re)).

Definition bare_pattern : regex := Cat Bos (Grp path_re).

Definition file_patterns : list regex := [comment_pattern; bare_pattern].

(** ** extract_file_info *)

(** The [for pattern in file_patterns] loop on an already stripped line:
    the first pattern that matches gives [file_path] and breaks. *)
Fixpoint first_match (patterns : list regex) (s : string) : option string :=
  match patterns with
  | [] => None
  | pattern :: more =>
      match re_match pattern s with
      | Some m => group1 m s
      | None => first_match more s
      end
  end.

Definition find_file_path (line : string) : option string :=
  first_match file_patterns (py_strip line).

(** Whether one of the two patterns matches the stripped line. *)
Definition matches_pattern (line : string) : bool :=
  existsb (λ pattern, bool_decide (is_Some (re_match pattern (py_strip line))))
    file_patterns.

(** The test [if file_path:] of the loop: the line opens a new file. *)
Definition is_marker (line : string) : bool := truthy (find_file_path line).

(** The condition of the inner loop on one line: blank, or a comment. *)
Definition skippable (line : string) : bool :=
  negb (nonempty (py_strip line))
  || startswith (py_strip line) "//"
  || startswith (py_strip line) "#".

(** A [while] loop with fuel: [None] when the fuel runs out. *)
Fixpoint while {S : Type} (fuel : nat) (cond : S -> bool)
    (body : S -> option S) (s : S) : option S :=
  if cond s then
    match fuel with
    | 0 => None
    | S fuel' =>
        match body s with
        | Some s' => while fuel' cond body s'
        | None => None
        end
    end
  else Some s.

(** The local variables of the scanning loop. *)
Record locals : Type := Locals {
  i : nat;
  current_file : option string;
  current_content : list string;
  files_data : list (string * string)
}.

(** ['\n'.join(current_content).strip()] *)
Definition joined (content : list string) : string :=
  py_strip (py_join NL content).

(** [lines[i]] inside the loops, where [i < len(lines)]. *)
Definition line_at (lines : list string) (n : nat) : string :=
  nth n lines EmptyString.

(** [while i < len(lines) and (not lines[i].strip() or ...): i += 1] *)
Definition skip_loop (fuel : nat) (lines : list string) (n : nat) : option nat :=
  while fuel
    (fun n => (n <? length lines) && skippable (line_at lines n))
    (fun n => Some (S n)) n.

(** [files_data.append((current_file, '\n'.join(current_content).strip()))]
    under [if current_file:]. *)
Definition save_open (cf : option string) (cc : list string)
    (fd : list (string * string)) : list (string * string) :=
  match cf with
  | Some path => if nonempty path then fd ++ [(path, joined cc)] else fd
  | None => fd
  end.

(** What the [else] branch does with the line. *)
Definition collect (cf : option string) (cc : list string) (line : string)
    : list string :=
  if truthy cf then cc ++ [line] else cc.

(** One iteration of the outer loop. *)
Definition loop_body (fuel : nat) (lines : list string) (st : locals)
    : option locals :=
  let line := line_at lines (i st) in
  let file_path := find_file_path line in
  if truthy file_path then
    let saved := save_open (current_file st) (current_content st) (files_data st) in
    n ← skip_loop fuel lines (S (i st));
    Some (Locals n file_path [] saved)
  else
    Some (Locals (S (i st)) (current_file st)
            (collect (current_file st) (current_content st) line)
            (files_data st)).

Definition initial : locals := Locals 0 None [] [].

(** The statement after the loop: [if current_file and current_content]. *)
Definition final (cf : option string) (cc : list string)
    (fd : list (string * string)) : list (string * string) :=
  if truthy cf && bool_decide (cc ≠ []) then save_open cf cc fd else fd.

Definition extract_with_fuel (fuel : nat) (content : string)
    : option (list (string * string)) :=
  let lines := py_split newline content in
  st ← while fuel (fun st => i st <? length lines) (loop_body fuel lines) initial;
  Some (final (current_file st) (current_content st) (files_data st)).

(** The loop needs at most one step per line, so [len(lines)] is enough fuel
    (see [extract_terminates]). *)
Definition extract_file_info (content : string) : list (string * string) :=
  default [] (extract_with_fuel (length (py_split newline content)) content).

(** The quotation mark, for strings that contain it. *)
Definition dq : string := String "034" EmptyString.

Definition scenario : string :=
  "// apps/web/src/index.ts" +:+ NL +:+
  "console.log(" +:+ dq +:+ "hi" +:+ dq +:+ ");" +:+ NL +:+
  "// apps/web/src/util.ts" +:+ NL +:+
  "export const x = 1;".

(** ** The loop as a recursion over the remaining lines *)

(** What the inner loop leaves: the lines from the first that is neither
    blank nor a comment. *)
Fixpoint skip_lines (ls : list string) : list string :=
  match ls with
  | [] => []
  | l :: more => if skippable l then skip_lines more else ls
  end.

(** [scan skipping ls cf cc fd]: the rest of the run on the remaining lines
    [ls], from inside the inner loop when [skipping], from the head of the
    outer loop otherwise. *)
Fixpoint scan (skipping : bool) (ls : list string) (cf : option string)
    (cc : list string) (fd : list (string * string)) : list (string * string) :=
  match ls with
  | [] => final cf cc fd
  | l :: more =>
      if skipping && skippable l then scan true more cf cc fd
      else if truthy (find_file_path l)
      then scan true more (find_file_path l) [] (save_open cf cc fd)
      else scan false more cf (collect cf cc l) fd
  end.

(** What remains to be computed from a state of the loop. *)
Definition rest_of (lines : list string) (st : locals) : list (string * string) :=
  scan false (drop (i st) lines)
    (current_file st) (current_content st) (files_data st).

(** ** What the two patterns accept, without the matcher *)

(** The longest prefix of [s] made of characters of the class [p]; what
    follows it is [lstrip_by p s]. *)
Fixpoint take_while (p : ascii -> bool) (s : string) : string :=
  match s with
  | EmptyString => EmptyString
  | String c s' => if p c then String c (take_while p s') else EmptyString
  end.

Fixpoint all_chars (p : ascii -> bool) (s : string) : bool :=
  match s with
  | EmptyString => true
  | String c s' => p c && all_chars p s'
  end.

(** [strip_prefix pre s]: what follows [pre] in [s], when [s] starts with it. *)
Fixpoint strip_prefix (pre s : string) : option string :=
  match pre with
  | EmptyString => Some s
  | String c pre' =>
      match s with
      | String d s' => if Ascii.eqb d c then strip_prefix pre' s' else None
      | EmptyString => None
      end
  end.

(** The allow-listed first segment at the start of [s], and what follows. *)
Definition parse_top (s : string) : option (string * string) :=
  match strip_prefix "apps" s with
  | Some t => Some ("apps", t)
  | None =>
      match strip_prefix "packages" s with
      | Some t => Some ("packages", t)
      | None => None
      end
  end.

(** The text [path_re] matches at the start of [s] and what is left of [s]:
    the longest run of path characters after the first slash must end at a
    dot that a word character follows; the extension is the longest run of
    word characters. *)
Definition parse_path (s : string) : option (string * string) :=
  match parse_top s with
  | Some (top, String sl (String d t)) =>
      if Ascii.eqb sl "/" && is_path_char d then
        match lstrip_by is_path_char t with
        | String dot (String e u) =>
            if Ascii.eqb dot "." && is_word e then
              Some (top +:+ "/" +:+ String d (take_while is_path_char t)
                      +:+ "." +:+ String e (take_while is_word u),
                    lstrip_by is_word u)
            else None
        | _ => None
        end
      else None
  | _ => None
  end.

(** What follows the comment token and its single space. *)
Definition parse_comment (s : string) : option string :=
  match strip_prefix "// " s with
  | Some u => Some u
  | None => strip_prefix "# " s
  end.

(** [file_path] for a stripped line: the comment form first, then the bare
    form. *)
Definition parse_marker (s : string) : option string :=
  match parse_comment s ≫= parse_path with
  | Some (path, _) => Some path
  | None => fst <$> parse_path s
  end.

(** The shape of a path: an allow-listed first segment, a slash, a non-empty
    run of word characters, slashes and hyphens, a dot, and a non-empty
    extension of word characters. *)
Definition path_shape (top body ext : string) : Prop :=
  (top = "apps" ∨ top = "packages")
  ∧ nonempty body = true ∧ all_chars is_path_char body = true
  ∧ nonempty ext = true ∧ all_chars is_word ext = true.

Definition begins_with_path (s : string) : Prop :=
  ∃ top body ext tail,
    path_shape top body ext ∧ s = top +:+ "/" +:+ body +:+ "." +:+ ext +:+ tail.

Definition comment_token (tok : string) : Prop := tok = "//" ∨ tok = "#".

(** Where the greedy repetition of the class [p] first stops, from
    position [n] with [s] still to read. *)
Definition longest (p : ascii -> bool) (s : string) (n : nat) : cursor :=
  Cursor (n + String.length (take_while p s)) (lstrip_by p s).

(** The lines the loop treats as markers, by their shape: after stripping,
    a comment token, exactly one space and a path; or a path at the start of
    the stripped line. *)
Definition marker_shape (line : string) : Prop :=
  (∃ tok u, comment_token tok
            ∧ py_strip line = tok +:+ " " +:+ u ∧ begins_with_path u)
  ∨ begins_with_path (py_strip line).

(** The two forms as the specification words them: after trimming, a
    comment token followed by whitespace and then a path; or the same path
    shape at the very start of the line. *)
Definition spec_marker (line : string) : Prop :=
  (∃ tok ws u, comment_token tok
               ∧ nonempty ws = true ∧ all_chars py_isspace ws = true
               ∧ py_strip line = tok +:+ ws +:+ u ∧ begins_with_path u)
  ∨ begins_with_path line.

Definition tab : string := String "009" EmptyString.

(** [produced_by lines n pair]: line [n] of the text is a marker line and
    its path is the path of [pair]. *)
Definition produced_by (lines : list string) (n : nat)
    (pair : string * string) : Prop :=
  ∃ l, lines !! n = Some l ∧ is_marker l = true
       ∧ find_file_path l = Some pair.1.

(** ** process_file and main *)

(** The two quotation marks, single and double: the argument of the first
    [strip]. *)
Definition quotes : string := "'" +:+ dq.

(** [file_path.strip(quotes).strip()] *)
Definition normalize_path (file_path : string) : string :=
  py_strip (py_strip_chars quotes file_path).

Definition is_slash (c : ascii) : bool := Ascii.eqb c "/".

Fixpoint endswith_slash (s : string) : bool :=
  match s with
  | EmptyString => false
  | String c EmptyString => is_slash c
  | String _ s' => endswith_slash s'
  end.

(** [os.path.join(a, b)] of [posixpath], for two arguments. *)
Definition path_join (a b : string) : string :=
  if startswith b "/" then b
  else if negb (nonempty a) || endswith_slash a then a +:+ b
  else a +:+ "/" +:+ b.

(** [os.path.dirname(p)] of [posixpath]: the head up to the last slash,
    without its trailing slashes unless it consists of slashes only. *)
Definition dirname (p : string) : string :=
  let head := rstrip_by (λ c, negb (is_slash c)) p in
  if nonempty head && negb (all_chars is_slash head)
  then rstrip_by is_slash head
  else head.

(** What one run gets from outside: what [os.walk] yields and what
    [open(...).read()] returns for each document during that run, the places
    where the operating system refuses to create a directory or to write a
    file, and the file each path names ([file_of]: two paths name one file
    exactly when they have the same image, as [out/apps/x.ts] and
    [out/apps//x.ts] do).  An exception is its message, the text [print]
    shows for it.  Another run has an environment of its own: what it finds
    in the source directory may differ, for instance when an earlier run has
    written there. *)
Record env : Type := Env {
  os_walk : string → list (string * list string);
  read_text : string → string + string;
  makedirs_error : string → option string;
  write_error : string → option string;
  file_of : string → string
}.

(** What the run changes: the content of the files written, by file, and
    the console. *)
Record world : Type := World {
  tree : gmap string string;
  console : list string
}.

(** A computation either raises an exception or returns a value; its
    effects on the world stay in both cases. *)
Definition io (A : Type) : Type := world → (string + A) * world.

Definition ret {A : Type} (a : A) : io A := λ w, (inr a, w).

Definition raise {A : Type} (e : string) : io A := λ w, (inl e, w).

Definition bind {A B : Type} (m : io A) (f : A → io B) : io B :=
  λ w, match m w with
       | (inr a, w') => f a w'
       | (inl e, w') => (inl e, w')
       end.

(** [try: body except Exception as e: handler(e)] *)
Definition try_except (body : io unit) (handler : string → io unit) : io unit :=
  λ w, match body w with
       | (inl e, w') => handler e w'
       | (inr tt, w') => (inr tt, w')
       end.

(** [for x in xs: body(x)] *)
Fixpoint for_each {A : Type} (xs : list A) (body : A → io unit) : io unit :=
  match xs with
  | [] => ret ()
  | x :: more => bind (body x) (λ _, for_each more body)
  end.

Definition print (line : string) : io unit :=
  λ w, (inr (), World (tree w) (console w ++ [line])).

Section Organizer.
Variable E : env.

(** [os.makedirs(path, exist_ok=True)] *)
Definition makedirs (path : string) : io unit :=
  match makedirs_error E path with
  | Some e => raise e
  | None => ret ()
  end.

(** [with open(path, 'r', encoding='utf-8') as f: content = f.read()]: what
    this run reads at [path]. *)
Definition read_file (path : string) : io string :=
  match read_text E path with
  | inl e => raise e
  | inr content => ret content
  end.

(** [with open(path, 'w', encoding='utf-8') as f: f.write(content)]: the
    file that [path] names gets the content, whatever it held. *)
Definition write_file (path content : string) : io unit :=
  match write_error E path with
  | Some e => raise e
  | None =>
      λ w, (inr (), World (<[file_of E path := content]> (tree w)) (console w))
  end.

(** The body of the loop over [files_data]. *)
Definition write_extracted (dest_dir : string) (pair : string * string)
    : io unit :=
  let file_path := normalize_path pair.1 in
  let full_path := path_join dest_dir file_path in
  bind (makedirs (dirname full_path)) (λ _,
  bind (write_file full_path pair.2) (λ _,
  print ("Created file: " +:+ full_path))).

Definition process_file (file_path dest_dir : string) : io unit :=
  bind (read_file file_path) (λ content,
  let files_data := extract_file_info content in
  for_each files_data (write_extracted dest_dir)).

(** The handler of [main]: one line naming the document and the error. *)
Definition report_error (file_path e : string) : io unit :=
  print ("Error processing " +:+ file_path +:+ ": " +:+ e).

(** [try: process_file(file_path, dest_dir) except Exception as e: ...] *)
Definition guarded (dest_dir file_path : string) : io unit :=
  try_except (process_file file_path dest_dir) (report_error file_path).

(** The files [os.walk] yields, each joined with its directory. *)
Definition documents (source_dir : string) : list string :=
  flat_map (λ '(root, files), map (path_join root) files) (os_walk E source_dir).

Definition main (source_dir dest_dir : string) : io unit :=
  bind (makedirs dest_dir) (λ _,
  bind (for_each (os_walk E source_dir) (λ '(root, files),
          for_each files (λ file, guarded dest_dir (path_join root file))))
    (λ _, print (NL +:+ "Files have been organized in " +:+ dest_dir))).
End Organizer.

(** The [full_path] values of the loop of [process_file], in order. *)
Definition output_paths (dest_dir content : string) : list string :=
  map (λ pair, path_join dest_dir (normalize_path pair.1))
    (extract_file_info content).

(** A document whose marker has its path in quotation marks. *)
Definition quoted_path : string := dq +:+ "apps/a/b.ts" +:+ dq.

Definition quoted_document : string :=
  "// " +:+ quoted_path +:+ NL +:+ "export {};".

(** Two adjacent markers, bare and comment-prefixed. *)
Definition adjacent_bare : string :=
  "apps/a/x.ts" +:+ NL +:+ "apps/b/y.ts" +:+ NL +:+ "body".

Definition adjacent_comments : string :=
  "// apps/a/x.ts" +:+ NL +:+ "// apps/b/y.ts" +:+ NL +:+ "body".

(** The pair the statement after the loop adds for an open path and the
    lines collected for it. *)
Definition last_pair (path : string) (collected : list string)
    : list (string * string) :=
  match collected with
  | [] => []
  | _ => [(path, joined collected)]
  end.

(** ** What a run writes and prints *)

(** Writing a sequence of (path, content) in order into a tree. *)
Definition apply_writes (E : env) (ws : list (string * string))
    (t : gmap string string) : gmap string string :=
  foldl (λ t pair, <[file_of E pair.1 := pair.2]> t) t ws.

(** The content of the last write in [ws] to a path that names [file], if
    any. *)
Fixpoint last_write (E : env) (file : string) (ws : list (string * string))
    : option string :=
  match ws with
  | [] => None
  | (q, content) :: more =>
      match last_write E file more with
      | Some later => Some later
      | None => if decide (file_of E q = file) then Some content else None
      end
  end.

(** [behaves E m r ws out]: from every world, [m] ends with the result [r]
    after writing [ws] and printing [out]. *)
Definition behaves (E : env) {A : Type} (m : io A) (r : string + A)
    (ws : list (string * string)) (out : list string) : Prop :=
  ∀ w, m w = (r, World (apply_writes E ws (tree w)) (console w ++ out)).

(** The first refusal of the operating system for an output file. *)
Definition refusal (E : env) (full_path : string) : option string :=
  match makedirs_error E (dirname full_path) with
  | Some e => Some e
  | None => write_error E full_path
  end.

(** The writes and the lines of the loop over [files_data], and the
    exception that ends it early, if any. *)
Fixpoint outcome (E : env) (dest_dir : string)
    (files_data : list (string * string))
    : (string + unit) * list (string * string) * list string :=
  match files_data with
  | [] => (inr (), [], [])
  | item :: more =>
      let full_path := path_join dest_dir (normalize_path item.1) in
      match refusal E full_path with
      | Some e => (inl e, [], [])
      | None =>
          let '(r, ws, out) := outcome E dest_dir more in
          (r, (full_path, item.2) :: ws, ("Created file: " +:+ full_path) :: out)
      end
  end.

(** The same for one document, from reading it on. *)
Definition doc_outcome (E : env) (dest_dir file_path : string)
    : (string + unit) * list (string * string) * list string :=
  match read_text E file_path with
  | inl e => (inl e, [], [])
  | inr content => outcome E dest_dir (extract_file_info content)
  end.

Definition doc_writes (E : env) (dest_dir file_path : string)
    : list (string * string) :=
  (doc_outcome E dest_dir file_path).1.2.

(** What one document adds to the console: the files created, then the
    error line if processing it raised. *)
Definition report (E : env) (dest_dir file_path : string) : list string :=
  (doc_outcome E dest_dir file_path).2
  ++ match (doc_outcome E dest_dir file_path).1.1 with
     | inl e => ["Error processing " +:+ file_path +:+ ": " +:+ e]
     | inr _ => []
     end.

Definition summary (dest_dir : string) : string :=
  NL +:+ "Files have been organized in " +:+ dest_dir.

(** Everything a run writes, in order: nothing when the destination root
    cannot be created. *)
Definition run_writes (E : env) (source_dir dest_dir : string)
    : list (string * string) :=
  match makedirs_error E dest_dir with
  | Some _ => []
  | None => flat_map (doc_writes E dest_dir) (documents E source_dir)
  end.

(** A path with each run of slashes made one slash: the file a path names
    where there are no links, for paths without dot segments taken from one
    working directory. *)
Fixpoint collapse_slashes (s : string) : string :=
  match s with
  | EmptyString => EmptyString
  | String c rest =>
      if is_slash c && startswith rest "/" then collapse_slashes rest
      else String c (collapse_slashes rest)
  end.

(** [same_source E E' source_dir]: the runs of [E] and of [E'] find the same
    source directory contents: the walk of [source_dir] yields the same
    documents and reading each of them returns the same. *)
Definition same_source (E E' : env) (source_dir : string) : Prop :=
  os_walk E' source_dir = os_walk E source_dir
  ∧ ∀ doc, doc ∈ documents E source_dir → read_text E' doc = read_text E doc.

(** [same_system E E']: in both runs the paths name the same files and the
    operating system refuses the same operations. *)
Definition same_system (E E' : env) : Prop :=
  (∀ path, file_of E' path = file_of E path)
  ∧ (∀ path, makedirs_error E' path = makedirs_error E path)
  ∧ (∀ path, write_error E' path = write_error E path).

(** A small environment: three documents, one of them unreadable, and one
    output file the operating system refuses. *)
Definition demo_env : env := {|
  os_walk dir :=
    if String.eqb dir "in"
    then [("in", ["a.txt"; "b.txt"]); ("in/sub", ["c.txt"])]
    else [];
  read_text path :=
    if String.eqb path "in/a.txt" then inr scenario
    else if String.eqb path "in/b.txt" then inl "invalid start byte"
    else if String.eqb path "in/sub/c.txt" then inr adjacent_bare
    else inl "No such file or directory";
  makedirs_error dir :=
    if String.eqb dir "locked" then Some "Permission denied" else None;
  write_error path :=
    if String.eqb path "out/apps/b/y.ts" then Some "Is a directory" else None;
  file_of := collapse_slashes
|}.

(** The environment of a second run after [demo_env]: the same source
    directory and the same system, while a document elsewhere has
    appeared. *)
Definition demo_env_again : env := {|
  os_walk dir :=
    if String.eqb dir "elsewhere" then [("elsewhere", ["new.txt"])]
    else os_walk demo_env dir;
  read_text path :=
    if String.eqb path "elsewhere/new.txt" then inr adjacent_comments
    else read_text demo_env path;
  makedirs_error := makedirs_error demo_env;
  write_error := write_error demo_env;
  file_of := file_of demo_env
|}.

(** The environment of a second run in which the first document has
    changed. *)
Definition demo_env_changed : env := {|
  os_walk := os_walk demo_env;
  read_text path :=
    if String.eqb path "in/a.txt" then inr ("apps/c/z.ts" +:+ NL +:+ "new")
    else read_text demo_env path;
  makedirs_error := makedirs_error demo_env;
  write_error := write_error demo_env;
  file_of := file_of demo_env
|}.

(** One document that names one file by two paths. *)
Definition two_names : string :=
  "apps/a/x.ts" +:+ NL +:+ "one" +:+ NL +:+ "apps/a//x.ts" +:+ NL +:+ "two".

Definition two_names_env : env := {|
  os_walk dir := if String.eqb dir "in" then [("in", ["d.txt"])] else [];
  read_text path :=
    if String.eqb path "in/d.txt" then inr two_names
    else inl "No such file or directory";
  makedirs_error _ := None;
  write_error _ := None;
  file_of := collapse_slashes
|}.

Definition empty_world : world := World ∅ [].

(** Whether the first character of [s] is in the class [p]. *)
Definition starts_in (p : ascii → bool) (s : string) : bool :=
  match s with
  | EmptyString => false
  | String c _ => p c
  end.

(** The files [process_file] sets out to write for a document, in order. *)
Definition intended (dest_dir content : string) : list (string * string) :=
  map (λ item, (path_join dest_dir (normalize_path item.1), item.2))
    (extract_file_info content).

(** The console line for a written file. *)
Definition created (item : string * string) : string :=
  "Created file: " +:+ item.1.

(** ** Which marker lines give a pair, by line number *)

(** The number of lines before the first marker line of [ls]. *)
Fixpoint first_marker (ls : list string) : option nat :=
  match ls with
  | [] => None
  | l :: more => if is_marker l then Some 0 else S <$> first_marker more
  end.

(** The lines of [ls] before its first marker line. *)
Fixpoint until_marker (ls : list string) : list string :=
  match ls with
  | [] => []
  | l :: more => if is_marker l then [] else l :: until_marker more
  end.

(** What follows line [n] once the blank and comment lines right after it
    are left out. *)
Definition body_after (lines : list string) (n : nat) : list string :=
  skip_lines (drop (S n) lines).

(** The lines collected for a marker at line [n]: what follows it, up to the
    next marker line. *)
Definition collected_after (lines : list string) (n : nat) : list string :=
  until_marker (body_after lines n).

(** The line number of the first marker line in what follows line [n]. *)
Definition next_reached (lines : list string) (n : nat) : option nat :=
  (λ k, length lines - length (body_after lines n) + k)
    <$> first_marker (body_after lines n).

(** [chain lines n nums]: from a marker at line [n] on, [nums] are the
    lines of the markers that give a pair.  The marker at [n] gives one when
    another marker is reached after it, or when lines were collected for it;
    it gives none when only blank and comment lines follow it. *)
Inductive chain (lines : list string) : nat → list nat → Prop :=
| chain_dropped n :
    body_after lines n = [] → chain lines n []
| chain_last n :
    next_reached lines n = None → collected_after lines n ≠ [] →
    chain lines n [n]
| chain_next n n' nums :
    next_reached lines n = Some n' → chain lines n' nums →
    chain lines n (n :: nums).

(** The markers that give a pair, from the first marker line of the text. *)
Definition emitting (lines : list string) (nums : list nat) : Prop :=
  match first_marker lines with
  | None => nums = []
  | Some n => chain lines n nums
  end.

(** Line [n] is a marker line with the path of [pair], and the content of
    [pair] is what was collected after line [n], joined and stripped. *)
Definition emitted_by (lines : list string) (n : nat)
    (pair : string * string) : Prop :=
  produced_by lines n pair ∧ pair.2 = joined (collected_after lines n).

(** * Properties *)

(** Goals about the lines of a concrete text: one evaluation per line. *)
Ltac each_line :=
  repeat (constructor; [vm_compute; reflexivity|]); constructor.

(** ** The scanning loop terminates and agrees with [scan] *)

Lemma line_at_drop (lines : list string) (n : nat) :
  n < length lines → drop n lines = line_at lines n :: drop (S n) lines.
Proof.
  intros Hn. destruct (lookup_lt_is_Some_2 lines n Hn) as [x Hx].
  unfold line_at. rewrite nth_lookup, Hx. simpl.
  by apply drop_S.
Qed.

Lemma scan_skipping (ls : list string) cf cc fd :
  scan true ls cf cc fd = scan false (skip_lines ls) cf cc fd.
Proof.
  induction ls as [|l more IH]; [done|].
  simpl. destruct (skippable l); [apply IH | done].
Qed.

Lemma skip_loop_spec (lines : list string) (fuel n : nat) :
  n ≤ length lines → length lines - n ≤ fuel →
  ∃ m, skip_loop fuel lines n = Some m ∧ n ≤ m ≤ length lines
       ∧ drop m lines = skip_lines (drop n lines).
Proof.
  unfold skip_loop. revert n. induction fuel as [|fuel IH]; intros n Hn Hfuel.
  - assert (n = length lines) as -> by lia.
    simpl. rewrite (proj2 (Nat.ltb_ge _ _)) by lia. simpl.
    exists (length lines). by rewrite drop_all.
  - simpl. destruct (Nat.ltb_spec n (length lines)) as [Hlt|Hge]; simpl.
    + rewrite (line_at_drop _ _ Hlt). simpl.
      destruct (skippable (line_at lines n)).
      * destruct (IH (S n)) as (m & Hm & Hle & Hdrop); [lia..|].
        exists m. split_and!; [done|lia..|done].
      * exists n. by rewrite <- line_at_drop.
    + exists n. rewrite drop_ge by lia. done.
Qed.

Lemma loop_body_spec (lines : list string) (fuel : nat) (st : locals) :
  length lines ≤ fuel → i st < length lines →
  ∃ st', loop_body fuel lines st = Some st'
         ∧ i st < i st' ≤ length lines
         ∧ rest_of lines st' = rest_of lines st.
Proof.
  intros Hfuel Hi. unfold loop_body, rest_of.
  rewrite (line_at_drop _ _ Hi). simpl.
  destruct (truthy (find_file_path (line_at lines (i st)))).
  - destruct (skip_loop_spec lines fuel (S (i st))) as (m & Hm & Hle & Hdrop);
      [lia..|].
    rewrite Hm. simpl. eexists. split; [done|]. simpl.
    split; [lia|]. by rewrite scan_skipping, Hdrop.
  - eexists. split; [done|]. simpl. split; [lia|done].
Qed.

Lemma loop_spec (lines : list string) (fuel' fuel : nat) (st : locals) :
  length lines ≤ fuel' → length lines - i st ≤ fuel →
  ∃ st', while fuel (fun st => i st <? length lines) (loop_body fuel' lines) st
           = Some st'
         ∧ length lines ≤ i st'
         ∧ final (current_file st') (current_content st') (files_data st')
           = rest_of lines st.
Proof.
  intros Hfuel'. revert st. induction fuel as [|fuel IH]; intros st Hfuel.
  - simpl. rewrite (proj2 (Nat.ltb_ge _ _)) by lia.
    exists st. split_and!; [done|lia|].
    unfold rest_of. by rewrite drop_ge by lia.
  - simpl. destruct (Nat.ltb_spec (i st) (length lines)) as [Hlt|Hge].
    + destruct (loop_body_spec lines fuel' st) as (st1 & -> & Hi & Hrest);
        [done..|].
      destruct (IH st1) as (st' & -> & Hend & Hfin); [lia|].
      exists st'. split_and!; [done..|]. by rewrite Hfin.
    + exists st. split_and!; [done..|].
      unfold rest_of. by rewrite drop_ge by lia.
Qed.

Lemma extract_with_fuel_scan (content : string) (fuel : nat) :
  length (py_split newline content) ≤ fuel →
  extract_with_fuel fuel content
  = Some (scan false (py_split newline content) None [] []).
Proof.
  intros Hfuel. unfold extract_with_fuel.
  destruct (loop_spec (py_split newline content) fuel fuel initial)
    as (st & -> & _ & Hfin); [done|simpl; lia|].
  simpl. by rewrite Hfin.
Qed.

Lemma extract_scan (content : string) :
  extract_file_info content = scan false (py_split newline content) None [] [].
Proof. unfold extract_file_info. by rewrite extract_with_fuel_scan. Qed.

(** C10: [extract_file_info] terminates on every text.  Each iteration of
    the outer loop, on the marker branch with its inner skip loop as on the
    other branch, returns with a strictly larger line index that is at most
    [len(lines)]; hence [len(lines)] steps of fuel, or more, always give a
    result, the one [extract_file_info] is defined by. *)
Theorem extract_terminates (content : string) :
  let lines := py_split newline content in
  (∀ n, n ≤ length lines →
     ∃ m, skip_loop (length lines) lines n = Some m ∧ n ≤ m ≤ length lines)
  ∧ (∀ st, i st < length lines →
       ∃ st', loop_body (length lines) lines st = Some st'
              ∧ i st < i st' ≤ length lines)
  ∧ (∀ fuel, length lines ≤ fuel →
       extract_with_fuel fuel content = Some (extract_file_info content)).
Proof.
  intros lines. split_and!.
  - intros n Hn.
    destruct (skip_loop_spec lines (length lines) n) as (m & Hm & Hle & _);
      [lia..|]. by exists m.
  - intros st Hi.
    destruct (loop_body_spec lines (length lines) st) as (st' & Hst & Hle & _);
      [lia..|]. by exists st'.
  - intros fuel Hfuel.
    by rewrite extract_with_fuel_scan, extract_scan.
Qed.

Lemma extract_terminates_witness :
  (∃ st', loop_body 4 (py_split newline scenario) initial = Some st'
          ∧ 0 < i st' ≤ 4)
  ∧ extract_with_fuel 4 scenario = Some (extract_file_info scenario).
Proof.
  destruct (extract_terminates scenario) as (_ & Hbody & Hfuel). split.
  - apply (Hbody initial). vm_compute. lia.
  - apply Hfuel. vm_compute. lia.
Defined.

(** C8: the end-to-end scenario of four lines gives exactly the two pairs,
    in the order of their markers. *)
Theorem scenario_two_files :
  extract_file_info scenario =
  [("apps/web/src/index.ts", "console.log(" +:+ dq +:+ "hi" +:+ dq +:+ ");");
   ("apps/web/src/util.ts", "export const x = 1;")].
Proof. vm_compute. reflexivity. Qed.

(** ** Texts without a marker, and with a single marker *)

Lemma no_match_no_path (line : string) :
  matches_pattern line = false → find_file_path line = None.
Proof.
  unfold matches_pattern, find_file_path, file_patterns. simpl.
  destruct (re_match comment_pattern (py_strip line)); [done|].
  destruct (re_match bare_pattern (py_strip line)); done.
Qed.

Lemma scan_closed (ls : list string) cc fd :
  Forall (λ l, truthy (find_file_path l) = false) ls →
  scan false ls None cc fd = fd.
Proof.
  induction 1 as [|l more Hl _ IH]; [done|].
  simpl. by rewrite Hl.
Qed.

Lemma scan_open (ls : list string) (path : string) cc fd :
  nonempty path = true →
  Forall (λ l, truthy (find_file_path l) = false) ls →
  scan false ls (Some path) cc fd = final (Some path) (cc ++ ls) fd.
Proof.
  intros Hpath Hls. revert cc.
  induction Hls as [|l more Hl _ IH]; intros cc.
  - by rewrite app_nil_r.
  - simpl. rewrite Hl. unfold collect. simpl. rewrite Hpath.
    by rewrite IH, <- app_assoc.
Qed.

Lemma final_open (path : string) (collected : list string) fd :
  nonempty path = true →
  final (Some path) collected fd = fd ++ last_pair path collected.
Proof.
  intros Hpath. unfold final, save_open, last_pair. simpl. rewrite Hpath.
  destruct collected; simpl; [by rewrite app_nil_r | done].
Qed.

Lemma scan_prefix (pre ls : list string) fd :
  Forall (λ l, truthy (find_file_path l) = false) pre →
  scan false (pre ++ ls) None [] fd = scan false ls None [] fd.
Proof.
  induction 1 as [|l more Hl _ IH]; [done|].
  simpl. by rewrite Hl.
Qed.

Lemma skip_lines_suffix (ls : list string) : skip_lines ls `suffix_of` ls.
Proof.
  induction ls as [|l more IH]; [done|].
  simpl. destruct (skippable l); [by apply suffix_cons_r | done].
Qed.

Lemma skip_lines_nonempty (ls : list string) :
  Exists (λ l, skippable l = false) ls → skip_lines ls ≠ [].
Proof.
  induction 1 as [l more Hl|l more _ IH]; simpl.
  - by rewrite Hl.
  - by destruct (skippable l).
Qed.

(** C3: a text none of whose lines matches a marker pattern yields no
    pair. *)
Theorem no_marker_no_files (content : string) :
  Forall (λ l, matches_pattern l = false) (py_split newline content) →
  extract_file_info content = [].
Proof.
  intros Hnone. rewrite extract_scan. apply scan_closed.
  eapply Forall_impl; [exact Hnone|].
  intros l Hl. simpl. by rewrite no_match_no_path.
Qed.

Lemma no_marker_no_files_witness :
  extract_file_info ("hello" +:+ NL +:+ "  # a comment" +:+ NL +:+ "x = 1") = [].
Proof. apply no_marker_no_files. each_line. Defined.

Lemma is_marker_path (line : string) :
  is_marker line = true →
  ∃ path, find_file_path line = Some path ∧ nonempty path = true.
Proof.
  unfold is_marker. destruct (find_file_path line) as [path|]; [|done].
  intros Hpath. by exists path.
Qed.

(** C2: a text with exactly one marker line, with no marker before or after
    it and at least one line after it that is neither blank nor a comment,
    yields exactly one pair: the path of the marker, with the lines after
    the marker, less the blank and comment lines that directly follow it,
    joined by newlines and stripped. *)
Theorem single_marker_one_file (content : string)
    (before after : list string) (marker : string) :
  py_split newline content = before ++ marker :: after →
  Forall (λ l, is_marker l = false) before →
  is_marker marker = true →
  Forall (λ l, is_marker l = false) after →
  Exists (λ l, skippable l = false) after →
  ∃ path,
    find_file_path marker = Some path
    ∧ extract_file_info content
      = [(path, py_strip (py_join NL (skip_lines after)))].
Proof.
  intros Hsplit Hbefore Hmarker Hafter Hcontent.
  destruct (is_marker_path marker Hmarker) as (path & Hfind & Hpath).
  exists path. split; [done|].
  rewrite extract_scan, Hsplit, scan_prefix by done.
  simpl. fold (is_marker marker). rewrite Hmarker, Hfind. simpl.
  rewrite scan_skipping, scan_open; [|done|].
  - unfold final. simpl. rewrite Hpath. simpl.
    by rewrite bool_decide_true by by apply skip_lines_nonempty.
  - destruct (skip_lines_suffix after) as [skipped Hsuffix].
    rewrite Hsuffix in Hafter. by apply Forall_app in Hafter as [_ ?].
Qed.

Lemma single_marker_one_file_witness :
  ∃ path,
    find_file_path "// apps/web/a.ts" = Some path
    ∧ extract_file_info
        ("intro" +:+ NL +:+ "// apps/web/a.ts" +:+ NL +:+ NL +:+ "# note"
         +:+ NL +:+ "  let a = 1;" +:+ NL +:+ NL +:+ "done" +:+ NL)
      = [(path, py_strip (py_join NL
                  (skip_lines [""; "# note"; "  let a = 1;"; ""; "done"; ""])))].
Proof.
  apply (single_marker_one_file _ ["intro"] _ "// apps/web/a.ts").
  - vm_compute. reflexivity.
  - each_line.
  - vm_compute. reflexivity.
  - each_line.
  - apply Exists_cons_tl, Exists_cons_tl, Exists_cons_hd. vm_compute. reflexivity.
Defined.

(** ** The matcher on the two patterns *)

Local Arguments String.append !_ _ / : simpl nomatch.

Lemma take_while_lstrip (p : ascii → bool) (s : string) :
  take_while p s +:+ lstrip_by p s = s.
Proof.
  induction s as [|c s IH]; [done|].
  simpl. destruct (p c); simpl; [by rewrite IH | done].
Qed.

Lemma take_while_all (p : ascii → bool) (s : string) :
  all_chars p (take_while p s) = true.
Proof.
  induction s as [|c s IH]; [done|].
  simpl. destruct (p c) eqn:Hc; simpl; [by rewrite Hc | done].
Qed.

Lemma lstrip_by_app (p : ascii → bool) (a b : string) :
  all_chars p a = true → lstrip_by p (a +:+ b) = lstrip_by p b.
Proof.
  induction a as [|c a IH]; [done|].
  simpl. intros [-> Ha]%andb_prop. by apply IH.
Qed.

Lemma take_while_app (p : ascii → bool) (a b : string) :
  all_chars p a = true → take_while p (a +:+ b) = a +:+ take_while p b.
Proof.
  induction a as [|c a IH]; [done|].
  simpl. intros [-> Ha]%andb_prop. by rewrite IH.
Qed.

Lemma strip_prefix_app (pre s t : string) :
  strip_prefix pre s = Some t ↔ s = pre +:+ t.
Proof.
  revert s. induction pre as [|c pre IH]; intros s; simpl.
  - split; congruence.
  - destruct s as [|d s]; [done|].
    destruct (Ascii.eqb_spec d c) as [->|Hne].
    + rewrite IH. split; congruence.
    + split; congruence.
Qed.

Lemma append_nil_r (s : string) : s +:+ "" = s.
Proof. induction s as [|c s IH]; simpl; [done | by rewrite IH]. Qed.

Lemma append_assoc (a b c : string) : (a +:+ b) +:+ c = a +:+ b +:+ c.
Proof. induction a as [|x a IH]; simpl; [done | by rewrite IH]. Qed.

Lemma string_length_app (a b : string) :
  String.length (a +:+ b) = String.length a + String.length b.
Proof. induction a as [|c a IH]; simpl; [done | by rewrite IH]. Qed.

Lemma substring_prefix (a b : string) :
  String.substring 0 (String.length a) (a +:+ b) = a.
Proof. induction a as [|c a IH]; simpl; [by destruct b | by rewrite IH]. Qed.

Lemma substring_skip (n len : nat) (a b : string) :
  String.length a = n →
  String.substring n len (a +:+ b) = String.substring 0 len b.
Proof.
  revert n. induction a as [|c a IH]; intros n <-; [done|].
  simpl. by apply IH.
Qed.

Section Greedy.
Context {R : Type} (p : ascii → bool) (k : cursor → option R).

(** The longest run is tried first. *)
Lemma greedy_commit (s : string) (n : nat) (r : R) :
  k (longest p s n) = Some r → greedy p s n k = Some r.
Proof.
  unfold longest. revert n. induction s as [|c s IH]; intros n; simpl.
  - by rewrite Nat.add_0_r.
  - destruct (p c); simpl.
    + rewrite Nat.add_succ_r. intros Hk. by rewrite (IH (S n)).
    + by rewrite Nat.add_0_r.
Qed.

(** When what follows cannot start with a character of the class, giving
    characters back never helps. *)
Lemma greedy_no_backtrack (s : string) (n : nat) :
  (∀ m c t, p c = true → k (Cursor m (String c t)) = None) →
  greedy p s n k = k (longest p s n).
Proof.
  intros Hk. unfold longest. revert n.
  induction s as [|c s IH]; intros n; simpl.
  - by rewrite Nat.add_0_r.
  - destruct (p c) eqn:Hc; simpl.
    + rewrite Nat.add_succ_r, (IH (S n)). simpl.
      destruct (k _); [done|]. by rewrite Hk.
    + by rewrite Nat.add_0_r.
Qed.
End Greedy.

(** The equations of [run], one per construct. *)
Lemma run_Cat {R : Type} (a b : regex) cur cap (k : cursor → capture → option R) :
  run (Cat a b) cur cap k = run a cur cap (λ cur' cap', run b cur' cap' k).
Proof. done. Qed.

Lemma run_Alt {R : Type} (a b : regex) cur cap (k : cursor → capture → option R) :
  run (Alt a b) cur cap k
  = match run a cur cap k with Some x => Some x | None => run b cur cap k end.
Proof. done. Qed.

Lemma run_Grp {R : Type} (r : regex) cur cap (k : cursor → capture → option R) :
  run (Grp r) cur cap k
  = run r cur cap (λ cur' _, k cur' (Some (pos cur, pos cur'))).
Proof. done. Qed.

Lemma run_Bos {R : Type} (s : string) cap (k : cursor → capture → option R) :
  run Bos (Cursor 0 s) cap k = k (Cursor 0 s) cap.
Proof. done. Qed.

Lemma run_Chr {R : Type} (c d : ascii) (n : nat) (s : string) cap
    (k : cursor → capture → option R) :
  run (Chr c) (Cursor n (String d s)) cap k
  = if Ascii.eqb d c then k (Cursor (S n) s) cap else None.
Proof. done. Qed.

Lemma run_Chr_empty {R : Type} (c : ascii) (n : nat) cap
    (k : cursor → capture → option R) :
  run (Chr c) (Cursor n "") cap k = None.
Proof. done. Qed.

Lemma run_lit {R : Type} (c : ascii) (more : string) (n : nat) (s : string)
    (cap : capture) (k : cursor → capture → option R) :
  run (lit c more) (Cursor n s) cap k
  = match strip_prefix (String c more) s with
    | Some t => k (Cursor (n + String.length (String c more)) t) cap
    | None => None
    end.
Proof.
  revert c n s. induction more as [|c' more IH]; intros c n s; simpl.
  - destruct s as [|d s]; [done|]. simpl.
    destruct (Ascii.eqb d c); [|done]. by rewrite Nat.add_1_r.
  - destruct s as [|d s]; [done|]. simpl.
    destruct (Ascii.eqb d c); [|done].
    rewrite IH. simpl.
    by replace (n + S (S (String.length more)))
      with (S (n + S (String.length more))) by lia.
Qed.

Lemma path_char_not_dot (c : ascii) :
  is_path_char c = true → Ascii.eqb c "." = false.
Proof. destruct (Ascii.eqb_spec c ".") as [->|]; [by vm_compute | done]. Qed.

Lemma parse_top_app (s top t : string) :
  parse_top s = Some (top, t) →
  (top = "apps" ∨ top = "packages") ∧ s = top +:+ t.
Proof.
  unfold parse_top.
  destruct (strip_prefix "apps" s) as [t1|] eqn:H1.
  - intros [= <- <-]. apply strip_prefix_app in H1. auto.
  - destruct (strip_prefix "packages" s) as [t2|] eqn:H2; [|done].
    intros [= <- <-]. apply strip_prefix_app in H2. auto.
Qed.

Lemma run_top {R : Type} (n : nat) (s : string) (cap : capture)
    (k : cursor → capture → option R) :
  run (Alt (lit "a" "pps") (lit "p" "ackages")) (Cursor n s) cap k
  = match parse_top s with
    | Some (top, t) => k (Cursor (n + String.length top) t) cap
    | None => None
    end.
Proof.
  change (run (Alt ?a ?b) ?cur ?c ?k0)
    with (match run a cur c k0 with Some x => Some x | None => run b cur c k0 end).
  rewrite !run_lit. unfold parse_top.
  destruct (strip_prefix "apps" s) as [t|] eqn:H1.
  - apply strip_prefix_app in H1 as ->.
    assert (strip_prefix "packages" ("apps" +:+ t) = None) as -> by done.
    by destruct (k _ _).
  - by destruct (strip_prefix "packages" s).
Qed.

Lemma run_path_re {R : Type} (n : nat) (s : string) (cap : capture)
    (k : cursor → capture → option R) :
  (∀ cur, is_Some (k cur cap)) →
  run path_re (Cursor n s) cap k
  = match parse_path s with
    | Some (m, tail) => k (Cursor (n + String.length m) tail) cap
    | None => None
    end.
Proof.
  intros Hk. unfold path_re, parse_path.
  change (run (Cat ?a ?b) ?cur ?c ?k0)
    with (run a cur c (λ cur' cap', run b cur' cap' k0)).
  rewrite run_top. destruct (parse_top s) as [[top t]|]; [|done].
  destruct t as [|sl [|d t]]; [done| |].
  - simpl. by destruct (Ascii.eqb sl "/").
  - simpl. destruct (Ascii.eqb sl "/"); [|done]. simpl.
    destruct (is_path_char d); [|done].
    rewrite greedy_no_backtrack.
    2:{ intros m c t' Hc. simpl. by rewrite path_char_not_dot. }
    unfold longest. simpl.
    destruct (lstrip_by is_path_char t) as [|dot [|e u]]; [done| |].
    + simpl. by destruct (Ascii.eqb dot ".").
    + simpl. destruct (Ascii.eqb dot "."); [|done]. simpl.
      destruct (is_word e); [|done].
      set (m := top +:+ _).
      set (p0 := S (S (S (S (n + String.length top
                                + String.length (take_while is_path_char t)))))).
      assert (n + String.length m
              = p0 + String.length (take_while is_word u)) as Hlen.
      { unfold m, p0. rewrite !string_length_app. simpl.
        rewrite !string_length_app. simpl. lia. }
      rewrite Hlen.
      destruct (Hk (longest is_word u p0)) as [r Hr].
      rewrite (greedy_commit _ _ _ _ r); [|done]. by rewrite <- Hr.
Qed.

Lemma parse_path_shape (s m tail : string) :
  parse_path s = Some (m, tail) →
  s = m +:+ tail
  ∧ ∃ top body ext,
      path_shape top body ext ∧ m = top +:+ "/" +:+ body +:+ "." +:+ ext.
Proof.
  unfold parse_path.
  destruct (parse_top s) as [[top t]|] eqn:Htop; [|done].
  apply parse_top_app in Htop as [Htop ->].
  destruct t as [|sl [|d t]]; [done..|].
  destruct (Ascii.eqb_spec sl "/") as [->|]; [|done]. simpl.
  destruct (is_path_char d) eqn:Hd; [|done].
  destruct (lstrip_by is_path_char t) as [|dot [|e u]] eqn:Ht; [done..|].
  destruct (Ascii.eqb_spec dot ".") as [->|]; [|done]. simpl.
  destruct (is_word e) eqn:He; [|done].
  intros [= <- <-]. split.
  - assert (t = take_while is_path_char t
                 +:+ String "." (String e (take_while is_word u
                                           +:+ lstrip_by is_word u))) as Heq.
    { rewrite take_while_lstrip, <- Ht. by rewrite take_while_lstrip. }
    rewrite !append_assoc. simpl. rewrite !append_assoc. simpl.
    by rewrite <- Heq.
  - exists top, (String d (take_while is_path_char t)),
      (String e (take_while is_word u)).
    split; [|done]. split_and!; try done; simpl.
    + by rewrite Hd, take_while_all.
    + by rewrite He, take_while_all.
Qed.

Lemma total_final (cur : cursor) (f : cursor → capture) :
  is_Some ((λ cur' (_ : capture), Some (f cur')) cur None).
Proof. by eexists. Qed.

Lemma re_match_bare (s : string) :
  re_match bare_pattern s
  = match parse_path s with
    | Some (m, _) => Some (Some (0, String.length m))
    | None => None
    end.
Proof.
  unfold re_match, bare_pattern.
  rewrite run_Cat, run_Bos, run_Grp, run_path_re
    by (intros cur; apply (total_final cur (λ cur', Some (0, pos cur')))).
  by destruct (parse_path s) as [[m tail]|].
Qed.

Lemma re_match_after_token (n : nat) (u : string) :
  run (Cat (Chr " ") (Grp path_re)) (Cursor n (String " " u)) None
    (λ _ cap, Some cap)
  = match parse_path u with
    | Some (m, _) => Some (Some (S n, S n + String.length m))
    | None => None
    end.
Proof.
  rewrite run_Cat, run_Chr. change (Ascii.eqb " " " ") with true. cbv iota.
  rewrite run_Grp, run_path_re
    by (intros cur; apply (total_final cur (λ cur', Some (S n, pos cur')))).
  by destruct (parse_path u) as [[m tail]|].
Qed.

Lemma group1_span (pre m tail : string) :
  group1 (Some (String.length pre, String.length pre + String.length m))
    (pre +:+ m +:+ tail) = Some m.
Proof.
  unfold group1. rewrite Nat.add_sub'.
  by rewrite (substring_skip _ _ pre), substring_prefix.
Qed.

Lemma parse_path_not_comment (s u : string) :
  parse_comment s = Some u → parse_path s = None.
Proof.
  unfold parse_comment.
  destruct (strip_prefix "// " s) as [u1|] eqn:H1.
  - apply strip_prefix_app in H1 as ->. done.
  - intros ->%strip_prefix_app. done.
Qed.

Lemma re_match_comment (s : string) :
  re_match comment_pattern s
  = match strip_prefix "// " s with
    | Some u =>
        match parse_path u with
        | Some (m, _) => Some (Some (3, 3 + String.length m))
        | None => None
        end
    | None =>
        match strip_prefix "# " s with
        | Some u =>
            match parse_path u with
            | Some (m, _) => Some (Some (2, 2 + String.length m))
            | None => None
            end
        | None => None
        end
    end.
Proof.
  unfold re_match, comment_pattern.
  rewrite run_Cat, run_Alt, run_lit.
  destruct s as [|c0 s]; [done|].
  destruct (Ascii.eqb_spec c0 "/") as [->|Hslash].
  - rewrite run_Chr. change (Ascii.eqb "/" "#") with false. cbv iota.
    destruct s as [|c1 s]; [done|].
    destruct (Ascii.eqb_spec c1 "/") as [->|Hne].
    + destruct s as [|c2 s]; [done|].
      destruct (Ascii.eqb_spec c2 " ") as [->|Hsp].
      * change (strip_prefix "//" (String "/" (String "/" (String " " s))))
          with (Some (String " " s)).
        change (strip_prefix "// " (String "/" (String "/" (String " " s))))
          with (Some s).
        cbv iota beta. rewrite re_match_after_token.
        by destruct (parse_path s) as [[m tail]|].
      * change (strip_prefix "//" (String "/" (String "/" (String c2 s))))
          with (Some (String c2 s)).
        cbv iota beta. rewrite run_Cat, run_Chr.
        rewrite (proj2 (Ascii.eqb_neq c2 " ")) by done.
        simpl strip_prefix. change (Ascii.eqb "/" "/") with true. cbv iota.
        rewrite (proj2 (Ascii.eqb_neq c2 " ")) by done.
        change (Ascii.eqb "/" "#") with false. done.
    + simpl strip_prefix. change (Ascii.eqb "/" "/") with true. cbv iota.
      rewrite (proj2 (Ascii.eqb_neq c1 "/")) by done.
      change (Ascii.eqb "/" "#") with false. done.
  - rewrite run_Chr. simpl strip_prefix.
    rewrite (proj2 (Ascii.eqb_neq c0 "/")) by done.
    destruct (Ascii.eqb_spec c0 "#") as [->|Hhash]; [|done].
    destruct s as [|c1 s]; [done|].
    destruct (Ascii.eqb_spec c1 " ") as [->|Hsp].
    + rewrite re_match_after_token.
      by destruct (parse_path s) as [[m tail]|].
    + rewrite run_Cat, run_Chr.
      by rewrite (proj2 (Ascii.eqb_neq c1 " ")) by done.
Qed.

(** The loop over [file_patterns] computes [parse_marker]. *)
Lemma first_match_parse (s : string) :
  first_match file_patterns s = parse_marker s.
Proof.
  unfold file_patterns, first_match, parse_marker, parse_comment.
  rewrite re_match_comment, re_match_bare.
  destruct (strip_prefix "// " s) as [u|] eqn:H1.
  - apply strip_prefix_app in H1 as ->. simpl mbind.
    destruct (parse_path u) as [[m tail]|] eqn:Hu; [|done].
    apply parse_path_shape in Hu as [-> _].
    apply (group1_span "// " m tail).
  - destruct (strip_prefix "# " s) as [u|] eqn:H2.
    + apply strip_prefix_app in H2 as ->. simpl mbind.
      destruct (parse_path u) as [[m tail]|] eqn:Hu; [|done].
      apply parse_path_shape in Hu as [-> _].
      apply (group1_span "# " m tail).
    + simpl mbind.
      destruct (parse_path s) as [[m tail]|] eqn:Hs; [|done].
      apply parse_path_shape in Hs as [-> _]. simpl.
      apply (group1_span "" m tail).
Qed.

Lemma find_file_path_parse (line : string) :
  find_file_path line = parse_marker (py_strip line).
Proof. apply first_match_parse. Qed.

Lemma parse_path_nonempty (s m tail : string) :
  parse_path s = Some (m, tail) → nonempty m = true.
Proof.
  intros (_ & top & body & ext & (Htop & _) & ->)%parse_path_shape.
  by destruct Htop as [-> | ->].
Qed.

Lemma parse_marker_nonempty (s path : string) :
  parse_marker s = Some path → nonempty path = true.
Proof.
  unfold parse_marker.
  destruct (parse_comment s ≫= parse_path) as [[m tail]|] eqn:Hc.
  - intros [= <-]. destruct (parse_comment s) as [u|]; [|done].
    by eapply parse_path_nonempty.
  - destruct (parse_path s) as [[m tail]|] eqn:Hs; [|done].
    intros [= <-]. by eapply parse_path_nonempty.
Qed.

Lemma decide_is_Some {A : Type} (o : option A) :
  bool_decide (is_Some o) = match o with Some _ => true | None => false end.
Proof.
  destruct o; [by apply bool_decide_true | apply bool_decide_false].
  by intros [? ?].
Qed.

(** The test [if file_path:] holds exactly when a pattern matched. *)
Lemma is_marker_matches (line : string) :
  is_marker line = matches_pattern line.
Proof.
  unfold is_marker, matches_pattern, file_patterns.
  rewrite find_file_path_parse.
  change (existsb ?f [?a; ?b]) with (f a || (f b || false)). cbv beta.
  rewrite !decide_is_Some, re_match_comment, re_match_bare.
  set (s := py_strip line). unfold parse_marker, parse_comment.
  destruct (strip_prefix "// " s) as [u|] eqn:H1.
  - assert (parse_path s = None) as Hs
      by (apply (parse_path_not_comment s u); unfold parse_comment;
          by rewrite H1).
    rewrite Hs. simpl mbind.
    destruct (parse_path u) as [[m tail]|] eqn:Hu; [|done].
    simpl. by rewrite (parse_path_nonempty u m tail).
  - destruct (strip_prefix "# " s) as [u|] eqn:H2.
    + assert (parse_path s = None) as Hs
        by (apply (parse_path_not_comment s u); unfold parse_comment;
            by rewrite H1, H2).
      rewrite Hs. simpl mbind.
      destruct (parse_path u) as [[m tail]|] eqn:Hu; [|done].
      simpl. by rewrite (parse_path_nonempty u m tail).
    + simpl mbind.
      destruct (parse_path s) as [[m tail]|] eqn:Hs; [|done].
      simpl. by rewrite (parse_path_nonempty s m tail).
Qed.

(** ** Which lines are markers *)

Lemma parse_path_complete (top body ext tail : string) :
  path_shape top body ext →
  is_Some (parse_path (top +:+ "/" +:+ body +:+ "." +:+ ext +:+ tail)).
Proof.
  intros (Htop & Hb & Hball & He & Heall).
  destruct body as [|d body]; [done|]. destruct ext as [|e ext]; [done|].
  simpl in Hball, Heall.
  apply andb_prop in Hball as [Hd Hbody]. apply andb_prop in Heall as [He' _].
  unfold parse_path.
  assert (parse_top (top +:+ "/" +:+ String d body +:+ "." +:+ String e ext +:+ tail)
          = Some (top, "/" +:+ String d body +:+ "." +:+ String e ext +:+ tail))
    as -> by (by destruct Htop as [-> | ->]).
  simpl. rewrite Hd, lstrip_by_app by done. simpl.
  change (is_path_char ".") with false. simpl. by rewrite He'.
Qed.

Lemma parse_path_begins (s : string) :
  is_Some (parse_path s) ↔ begins_with_path s.
Proof.
  split.
  - intros [[m tail] Hs].
    apply parse_path_shape in Hs as (-> & top & body & ext & Hshape & ->).
    exists top, body, ext, tail. split; [done|].
    rewrite !append_assoc. simpl. by rewrite ?append_assoc.
  - intros (top & body & ext & tail & Hshape & ->).
    by apply parse_path_complete.
Qed.

Lemma parse_comment_token (s u : string) :
  parse_comment s = Some u ↔ ∃ tok, comment_token tok ∧ s = tok +:+ " " +:+ u.
Proof.
  unfold parse_comment, comment_token. split.
  - destruct (strip_prefix "// " s) as [u1|] eqn:H1.
    + intros [= ->]. apply strip_prefix_app in H1. exists "//". auto.
    + intros H2%strip_prefix_app. exists "#". auto.
  - by intros (tok & [-> | ->] & ->).
Qed.

Lemma is_marker_shape (line : string) :
  is_marker line = true ↔ marker_shape line.
Proof.
  unfold is_marker, marker_shape. rewrite find_file_path_parse.
  set (s := py_strip line). unfold parse_marker. split.
  - destruct (parse_comment s) as [u|] eqn:Hc; simpl.
    + destruct (parse_path u) as [[m tail]|] eqn:Hu.
      * intros _. left. apply parse_comment_token in Hc as (tok & Htok & Hs).
        exists tok, u. split_and!; [done..|]. apply parse_path_begins. eauto.
      * rewrite (parse_path_not_comment s u Hc). done.
    + destruct (parse_path s) as [[m tail]|] eqn:Hs; [|done].
      intros _. right. apply parse_path_begins. eauto.
  - intros [(tok & u & Htok & Hs & [[m tail] Hu]%parse_path_begins)
           | [[m tail] Hs]%parse_path_begins].
    + assert (parse_comment s = Some u) as ->
        by (apply parse_comment_token; eauto).
      simpl. rewrite Hu. by eapply parse_path_nonempty.
    + destruct (parse_comment s) as [u|] eqn:Hc.
      * by rewrite (parse_path_not_comment s u Hc) in Hs.
      * simpl. rewrite Hs. simpl. by eapply parse_path_nonempty.
Qed.

(** C5, as the code has it: a line is a marker exactly when, after
    stripping, it begins with a comment token ([//] or [#]), exactly one
    space and a path (an allow-listed first segment, a slash, a non-empty
    run of word characters, slashes and hyphens, a dot and a non-empty
    extension), or begins with such a path itself; the comment form is tried
    first and the first pattern that matches gives the path. *)
Theorem marker_recognition (line : string) :
  (is_marker line = true ↔ marker_shape line)
  ∧ find_file_path line
    = match re_match comment_pattern (py_strip line) with
      | Some m => group1 m (py_strip line)
      | None =>
          match re_match bare_pattern (py_strip line) with
          | Some m => group1 m (py_strip line)
          | None => None
          end
      end.
Proof. split; [apply is_marker_shape | done]. Qed.

Lemma marker_recognition_witness :
  is_marker "  # packages/ui/x-y.tsx (new)" = true.
Proof.
  apply (proj1 (marker_recognition _)). left.
  exists "#", "packages/ui/x-y.tsx (new)". split_and!.
  - by right.
  - vm_compute. reflexivity.
  - exists "packages", "ui/x-y", "tsx", " (new)". split; [|reflexivity].
    split_and!; [by right | vm_compute; reflexivity..].
Defined.

(** C5 as stated fails: a tab after the comment token is whitespace, yet
    the pattern asks for one space, so the line is not a marker. *)
Lemma marker_tab_counterexample :
  ¬ (∀ line, is_marker line = true ↔ spec_marker line).
Proof.
  intros Hall. destruct (Hall ("//" +:+ tab +:+ "apps/a/b.ts")) as [_ Hspec].
  assert (is_marker ("//" +:+ tab +:+ "apps/a/b.ts") = false) as Hcode
    by (vm_compute; reflexivity).
  rewrite Hspec in Hcode; [done|]. left.
  exists "//", tab, "apps/a/b.ts". split_and!.
  - by left.
  - reflexivity.
  - vm_compute. reflexivity.
  - vm_compute. reflexivity.
  - exists "apps", "a/b", "ts", "". split; [|reflexivity].
    split_and!; [by left | vm_compute; reflexivity..].
Qed.

(** The bare form is tested on the stripped line: an indented path is a
    marker although the path is not at the very start of the line. *)
Example marker_indented :
  is_marker "  apps/a/b.ts" = true ∧ ¬ spec_marker "  apps/a/b.ts".
Proof.
  split; [vm_compute; reflexivity|].
  intros [(tok & ws & u & [-> | ->] & _ & _ & Hs & _)
         | (top & body & ext & tail & ([-> | ->] & _) & Hs)];
    vm_compute in Hs; discriminate.
Qed.

(** ** The order of the pairs *)

Ltac nothing_more :=
  exists [], []; rewrite app_nil_r; split_and!; [done | constructor..].

Lemma scan_order (lines : list string) (ls pre : list string)
    (sk : bool) (cf : option string) (c : nat) cc fd :
  lines = pre ++ ls →
  (cf = None ∨ (c < length pre ∧ produced_by lines c (default "" cf, ""))) →
  ∃ out nums,
    scan sk ls cf cc fd = fd ++ out
    ∧ Forall2 (produced_by lines) nums out
    ∧ StronglySorted lt nums
    ∧ Forall (λ n, (if truthy cf then c else length pre) ≤ n) nums.
Proof.
  revert pre sk cf c cc fd.
  induction ls as [|l more IH]; intros pre sk cf c cc fd Hlines Hopen.
  - simpl. unfold final, save_open.
    destruct cf as [path|]; simpl; [|nothing_more].
    destruct (nonempty path) eqn:Hpath; simpl;
      [|nothing_more].
    destruct (bool_decide _); [|nothing_more].
    destruct Hopen as [?|[Hc Hprod]]; [done|].
    exists [(path, joined cc)], [c]. split_and!; [done| | |].
    + by constructor.
    + by repeat constructor.
    + by repeat constructor.
  - assert (lines = (pre ++ [l]) ++ more) as Hlines'
        by by rewrite <- app_assoc.
    assert (length (pre ++ [l]) = S (length pre)) as Hlen
        by (rewrite length_app; simpl; lia).
    simpl. destruct (sk && skippable l).
    + destruct (IH (pre ++ [l]) true cf c cc fd Hlines')
        as (out & nums & Hscan & Hprod & Hsorted & Hbound).
      { destruct Hopen as [?|[Hc ?]]; [by left | right; split; [lia|done]]. }
      exists out, nums. split_and!; [done..|].
      eapply Forall_impl; [exact Hbound|].
      intros n. simpl. destruct (truthy cf); lia.
    + destruct (truthy (find_file_path l)) eqn:Hl.
      * assert (is_marker l = true) as Hmark by exact Hl.
        destruct (find_file_path l) as [path|] eqn:Hfind; [|done].
        destruct (IH (pre ++ [l]) true (Some path) (length pre) []
                    (save_open cf cc fd) Hlines')
          as (out & nums & Hscan & Hprod & Hsorted & Hbound).
        { right. split; [lia|]. exists l. split_and!; [|done..].
          rewrite Hlines. by rewrite list_lookup_middle. }
        simpl in Hbound, Hl. rewrite Hl in Hbound. rewrite Hscan.
        unfold save_open.
        destruct cf as [open|]; simpl;
          [|exists out, nums; split_and!; [done..|];
            eapply Forall_impl; [exact Hbound|]; simpl; lia].
        destruct (nonempty open) eqn:Hopen';
          [|exists out, nums; split_and!; [done..|];
            eapply Forall_impl; [exact Hbound|]; simpl; lia].
        destruct Hopen as [?|[Hc Hprod0]]; [done|].
        exists ((open, joined cc) :: out), (c :: nums).
        split_and!.
        -- by rewrite <- app_assoc.
        -- by constructor.
        -- constructor; [done|].
           eapply Forall_impl; [exact Hbound|]. simpl. lia.
        -- constructor; [lia|].
           eapply Forall_impl; [exact Hbound|]. simpl. lia.
      * destruct (IH (pre ++ [l]) false cf c (collect cf cc l) fd Hlines')
          as (out & nums & Hscan & Hprod & Hsorted & Hbound).
        { destruct Hopen as [?|[Hc ?]]; [by left | right; split; [lia|done]]. }
        exists out, nums. split_and!; [done..|].
        eapply Forall_impl; [exact Hbound|].
        intros n. simpl. destruct (truthy cf); lia.
Qed.

Lemma pairs_produced (content : string) :
  ∃ nums : list nat,
    Forall2 (produced_by (py_split newline content)) nums
      (extract_file_info content)
    ∧ StronglySorted lt nums.
Proof.
  rewrite extract_scan.
  destruct (scan_order (py_split newline content) (py_split newline content)
              [] false None 0 [] []) as (out & nums & -> & Hprod & Hsorted & _);
    [done | by left |].
  by exists nums.
Qed.

(** *** Which markers give a pair *)

Lemma first_marker_None (ls : list string) :
  first_marker ls = None →
  Forall (λ l, is_marker l = false) ls ∧ until_marker ls = ls.
Proof.
  induction ls as [|l more IH]; [done|].
  simpl. destruct (is_marker l) eqn:Hl; [done|].
  destruct (first_marker more); [done|]. intros _.
  destruct IH as [Hall Huntil]; [done|].
  split; [by constructor | by rewrite Huntil].
Qed.

Lemma first_marker_Some (ls : list string) (k : nat) :
  first_marker ls = Some k →
  ∃ coll m rest,
    ls = coll ++ m :: rest ∧ length coll = k
    ∧ Forall (λ l, is_marker l = false) coll ∧ is_marker m = true
    ∧ until_marker ls = coll.
Proof.
  revert k. induction ls as [|l more IH]; intros k; [done|].
  simpl. destruct (is_marker l) eqn:Hl.
  - intros [= <-]. by exists [], l, more.
  - destruct (first_marker more) as [k'|]; [|done]. intros [= <-].
    destruct (IH k') as (coll & m & rest & -> & Hlen & Hall & Hm & Huntil);
      [done|].
    exists (l :: coll), m, rest. split_and!; [done | | | done |].
    + simpl. by rewrite Hlen.
    + by constructor.
    + by rewrite Huntil.
Qed.

Lemma scan_collect (coll ls : list string) (path : string) cc fd :
  nonempty path = true →
  Forall (λ l, is_marker l = false) coll →
  scan false (coll ++ ls) (Some path) cc fd
  = scan false ls (Some path) (cc ++ coll) fd.
Proof.
  intros Hpath Hcoll. revert cc.
  induction Hcoll as [|l more Hl _ IH]; intros cc.
  - by rewrite app_nil_r.
  - simpl. unfold is_marker in Hl. rewrite Hl. unfold collect. simpl.
    rewrite Hpath. by rewrite IH, <- app_assoc.
Qed.

Lemma body_after_middle (pre rest : list string) (m : string) :
  body_after (pre ++ m :: rest) (length pre) = skip_lines rest.
Proof.
  unfold body_after. f_equal.
  rewrite (cons_middle m pre rest), app_assoc.
  replace (S (length pre)) with (length (pre ++ [m]))
    by (rewrite length_app; simpl; lia).
  by rewrite drop_app_length.
Qed.

(** Another marker is reached only further down. *)
Lemma next_reached_later (lines : list string) (n n' : nat) :
  next_reached lines n = Some n' → n < n' < length lines.
Proof.
  unfold next_reached, body_after.
  destruct (skip_lines_suffix (drop (S n) lines)) as [skipped Hskipped].
  set (body := skip_lines (drop (S n) lines)) in *.
  destruct (first_marker body) as [k|] eqn:Hfirst; [|done].
  intros [= <-].
  apply first_marker_Some in Hfirst
    as (coll & m & rest & Hbody & Hlen & _).
  assert (length (drop (S n) lines) = length skipped + length body) as Hdrop
    by (by rewrite Hskipped, length_app).
  rewrite length_drop in Hdrop.
  assert (length body = k + S (length rest)) as Hb
    by (rewrite Hbody, length_app, Hlen; simpl; lia).
  lia.
Qed.

Lemma chain_bounds (lines : list string) (n : nat) (nums : list nat) :
  chain lines n nums →
  StronglySorted lt nums ∧ Forall (λ x, n ≤ x) nums.
Proof.
  induction 1 as [n _|n _ _|n n' nums Hnext _ [Hsorted Hbound]].
  - split; constructor.
  - split; repeat constructor.
  - apply next_reached_later in Hnext.
    split; constructor; try done; try lia;
      (eapply Forall_impl; [exact Hbound|]; simpl; lia).
Qed.

Lemma chain_unique (lines : list string) (n : nat) (a b : list nat) :
  chain lines n a → chain lines n b → a = b.
Proof.
  intros Ha. revert b.
  induction Ha as [n Hbody|n Hnext Hcoll|n n' nums Hnext _ IH];
    intros b Hb; inversion Hb as [? Hbody'|? Hnext' Hcoll'|? n2 nums2 Hnext' Hb'];
    subst; try done.
  - exfalso. apply Hcoll'. unfold collected_after. by rewrite Hbody.
  - unfold next_reached in Hnext'. by rewrite Hbody in Hnext'.
  - exfalso. apply Hcoll. unfold collected_after. by rewrite Hbody'.
  - by rewrite Hnext in Hnext'.
  - unfold next_reached in Hnext. by rewrite Hbody' in Hnext.
  - by rewrite Hnext in Hnext'.
  - rewrite Hnext in Hnext'. injection Hnext' as <-. f_equal. by apply IH.
Qed.

Lemma emitting_unique (lines : list string) (a b : list nat) :
  emitting lines a → emitting lines b → a = b.
Proof.
  unfold emitting. destruct (first_marker lines) as [n|].
  - apply chain_unique.
  - by intros -> ->.
Qed.

Lemma first_marker_middle (coll rest : list string) (m : string) :
  Forall (λ l, is_marker l = false) coll → is_marker m = true →
  first_marker (coll ++ m :: rest) = Some (length coll).
Proof.
  intros Hcoll Hm. induction Hcoll as [|l more Hl _ IH]; simpl.
  - by rewrite Hm.
  - by rewrite Hl, IH.
Qed.

(** The run from a marker after which no other marker is reached. *)
Lemma scan_chain_end (lines rest pre : list string) (m path : string) fd :
  lines = pre ++ m :: rest →
  find_file_path m = Some path → nonempty path = true →
  first_marker (skip_lines rest) = None →
  ∃ nums pairs,
    scan true rest (Some path) [] fd = fd ++ pairs
    ∧ chain lines (length pre) nums
    ∧ Forall2 (emitted_by lines) nums pairs.
Proof.
  intros Hlines Hfind Hpath Hfirst.
  assert (is_marker m = true) as Hm
    by (unfold is_marker; by rewrite Hfind).
  assert (body_after lines (length pre) = skip_lines rest) as Hbody
    by (rewrite Hlines; apply body_after_middle).
  assert (produced_by lines (length pre) (path, "")) as Hprod.
  { exists m. split_and!; [|done..].
    rewrite Hlines. by rewrite list_lookup_middle. }
  assert (next_reached lines (length pre) = None) as Hnext
    by (unfold next_reached; by rewrite Hbody, Hfirst).
  apply first_marker_None in Hfirst as [Hnone Huntil].
  assert (collected_after lines (length pre) = skip_lines rest) as Hcollected
    by (unfold collected_after; by rewrite Hbody).
  rewrite scan_skipping, scan_open, final_open by done. simpl.
  destruct (skip_lines rest) as [|l body] eqn:Hskip.
  - exists [], []. split_and!; [done | | constructor].
    by apply chain_dropped.
  - exists [length pre], [(path, joined (l :: body))].
    split_and!; [done | |].
    + apply chain_last; [done|]. by rewrite Hcollected.
    + constructor; [|constructor]. split; [done|].
      simpl. by rewrite Hcollected.
Qed.

(** The run from a marker at line [length pre] on: the pairs it adds are
    those of the chain of that marker, each with the lines collected after
    its marker. *)
Lemma scan_chain (lines : list string) (len : nat) :
  ∀ (rest pre : list string) (m path : string) fd,
    length rest ≤ len →
    lines = pre ++ m :: rest →
    find_file_path m = Some path → nonempty path = true →
    ∃ nums pairs,
      scan true rest (Some path) [] fd = fd ++ pairs
      ∧ chain lines (length pre) nums
      ∧ Forall2 (emitted_by lines) nums pairs.
Proof.
  induction len as [|len IH]; intros rest pre m path fd Hlen Hlines Hfind Hpath.
  { apply (scan_chain_end lines rest pre m path fd); [done..|].
    destruct rest; [done | simpl in Hlen; lia]. }
  destruct (first_marker (skip_lines rest)) as [k|] eqn:Hfirst;
    [|by apply (scan_chain_end lines rest pre m path fd)].
  assert (is_marker m = true) as Hm
    by (unfold is_marker; by rewrite Hfind).
  assert (body_after lines (length pre) = skip_lines rest) as Hbody
    by (rewrite Hlines; apply body_after_middle).
  assert (produced_by lines (length pre) (path, "")) as Hprod.
  { exists m. split_and!; [|done..].
    rewrite Hlines. by rewrite list_lookup_middle. }
  destruct (skip_lines_suffix rest) as [skipped Hskipped].
  apply first_marker_Some in Hfirst
    as (coll & m' & rest' & Hsplit & Hk & Hcoll & Hm' & Huntil).
  assert (collected_after lines (length pre) = coll) as Hcollected
    by (unfold collected_after; by rewrite Hbody).
  destruct (is_marker_path m' Hm') as (path' & Hfind' & Hpath').
  assert (lines = (pre ++ m :: skipped ++ coll) ++ m' :: rest') as Hlines'.
  { rewrite Hlines, Hskipped, Hsplit.
    by rewrite <- !app_assoc, <- !app_comm_cons, <- !app_assoc. }
  assert (length rest = length skipped + (length coll + S (length rest')))
    as Hrest.
  { rewrite Hskipped, Hsplit. rewrite !length_app. simpl. lia. }
  assert (next_reached lines (length pre)
          = Some (length (pre ++ m :: skipped ++ coll))) as Hnext.
  { unfold next_reached. rewrite Hbody, Hsplit.
    rewrite first_marker_middle by done. simpl. f_equal.
    rewrite Hlines, Hskipped, Hsplit. rewrite !length_app. simpl.
    rewrite !length_app. simpl. lia. }
  destruct (IH rest' (pre ++ m :: skipped ++ coll) m' path'
              (fd ++ [(path, joined coll)]))
    as (nums & pairs & Hscan & Hchain & Hpairs); [lia | done..|].
  exists (length pre :: nums), ((path, joined coll) :: pairs).
  split_and!.
  - rewrite scan_skipping, Hsplit, scan_collect by done. simpl.
    unfold is_marker in Hm'. rewrite Hm', Hfind'. simpl. rewrite Hpath.
    by rewrite Hscan, <- app_assoc.
  - by eapply chain_next.
  - constructor; [|done]. split; [done|].
    simpl. by rewrite Hcollected.
Qed.

(** The pairs of a text, with the line numbers of their markers. *)
Lemma pairs_emitted (content : string) :
  ∃ nums : list nat,
    emitting (py_split newline content) nums
    ∧ Forall2 (emitted_by (py_split newline content)) nums
        (extract_file_info content).
Proof.
  rewrite extract_scan. set (lines := py_split newline content).
  unfold emitting.
  destruct (first_marker lines) as [k|] eqn:Hfirst.
  - apply first_marker_Some in Hfirst
      as (pre & m & rest & Hlines & <- & Hpre & Hm & _).
    destruct (is_marker_path m Hm) as (path & Hfind & Hpath).
    destruct (scan_chain lines (length rest) rest pre m path [])
      as (nums & pairs & Hscan & Hchain & Hpairs); [done..|].
    exists nums. split; [done|].
    rewrite Hlines, scan_prefix by done. simpl.
    unfold is_marker in Hm. rewrite Hm, Hfind. simpl.
    by rewrite Hscan, <- Hlines.
  - apply first_marker_None in Hfirst as [Hnone _].
    exists []. split; [done|]. rewrite scan_closed by done. constructor.
Qed.

(** C6: the pairs come in the order of the marker lines that produced
    them.  The markers that give a pair are fixed by the text alone: the
    first marker line, then each time the first marker line found after the
    blank and comment lines that follow the previous one, a marker counting
    when another is reached after it or when lines were collected for it.
    The result has exactly one pair for each of these markers, in the order
    of their lines: the path of that marker, with the lines collected after
    it; the line numbers increase strictly along the result.  Nothing asks
    the paths to differ, so a path may occur in several pairs, each at the
    place of its own marker. *)
Theorem extraction_order (content : string) :
  let lines := py_split newline content in
  ∃ nums : list nat,
    emitting lines nums
    ∧ (∀ nums', emitting lines nums' → nums' = nums)
    ∧ Forall2 (emitted_by lines) nums (extract_file_info content)
    ∧ StronglySorted lt nums.
Proof.
  intros lines.
  destruct (pairs_emitted content) as (nums & Hemit & Hpairs).
  exists nums. split_and!; [done | | done |].
  - intros nums' Hemit'. by apply (emitting_unique lines).
  - revert Hemit. unfold emitting. fold lines.
    destruct (first_marker lines) as [n|].
    + intros Hchain. by apply chain_bounds in Hchain as [? _].
    + intros ->. constructor.
Qed.

Example duplicate_paths_kept :
  extract_file_info
    ("apps/a/x.ts" +:+ NL +:+ "one" +:+ NL +:+ "apps/a/x.ts" +:+ NL +:+ "two")
  = [("apps/a/x.ts", "one"); ("apps/a/x.ts", "two")].
Proof. vm_compute. reflexivity. Qed.

(** In that text the markers that give a pair are those of lines 0 and 2,
    in this order and no other. *)
Example duplicate_paths_markers :
  emitting ["apps/a/x.ts"; "one"; "apps/a/x.ts"; "two"] [0; 2].
Proof.
  unfold emitting.
  assert (first_marker ["apps/a/x.ts"; "one"; "apps/a/x.ts"; "two"] = Some 0)
    as -> by (vm_compute; reflexivity).
  apply (chain_next _ 0 2); [vm_compute; reflexivity|].
  apply chain_last; [vm_compute; reflexivity|].
  vm_compute. discriminate.
Qed.

(** A marker of the comment form right after another marker is passed over
    with the comment lines: only the marker of line 0 gives a pair. *)
Example swallowed_marker_no_pair :
  emitting ["// apps/a/x.ts"; "// apps/b/y.ts"; "body"] [0].
Proof.
  unfold emitting.
  assert (first_marker ["// apps/a/x.ts"; "// apps/b/y.ts"; "body"] = Some 0)
    as -> by (vm_compute; reflexivity).
  apply chain_last; [vm_compute; reflexivity|].
  vm_compute. discriminate.
Qed.

(** ** Normalizing the extracted paths *)

Lemma all_chars_impl (p q : ascii → bool) (s : string) :
  (∀ c, p c = true → q c = true) →
  all_chars p s = true → all_chars q s = true.
Proof.
  intros Hpq. induction s as [|c s IH]; [done|].
  simpl. intros [Hc Hs]%andb_prop. by rewrite (Hpq c Hc), IH.
Qed.

Lemma rstrip_by_fixed (p : ascii → bool) (s : string) :
  all_chars (λ c, negb (p c)) s = true → rstrip_by p s = s.
Proof.
  induction s as [|c s IH]; [done|].
  simpl. intros [Hc Hs]%andb_prop. rewrite IH by done.
  apply negb_true_iff in Hc. rewrite Hc. by destruct s.
Qed.

Lemma rstrip_by_app_fixed (p : ascii → bool) (a b : string) :
  nonempty b = true → all_chars (λ c, negb (p c)) b = true →
  rstrip_by p (a +:+ b) = a +:+ b.
Proof.
  intros Hb Hall. induction a as [|c a IH]; simpl.
  - by apply rstrip_by_fixed.
  - rewrite IH. destruct (a +:+ b) eqn:Hab; [|done].
    destruct a; [|done]. simpl in Hab. by subst.
Qed.

Lemma word_not_space (c : ascii) : is_word c = true → negb (py_isspace c) = true.
Proof. destruct c as [[] [] [] [] [] [] [] []]; by vm_compute. Qed.

Lemma word_not_quote (c : ascii) :
  is_word c = true → negb (char_in quotes c) = true.
Proof. destruct c as [[] [] [] [] [] [] [] []]; by vm_compute. Qed.

Lemma path_strip_fixed (p : ascii → bool) (top body ext : string) :
  path_shape top body ext →
  p "a"%char = false → p "p"%char = false →
  (∀ c, is_word c = true → negb (p c) = true) →
  strip_by p (top +:+ "/" +:+ body +:+ "." +:+ ext)
  = top +:+ "/" +:+ body +:+ "." +:+ ext.
Proof.
  intros (Htop & _ & _ & Hext & Hall) Ha Hp Hword. unfold strip_by.
  assert (lstrip_by p (top +:+ "/" +:+ body +:+ "." +:+ ext)
          = top +:+ "/" +:+ body +:+ "." +:+ ext) as ->
    by (destruct Htop as [-> | ->]; simpl; by rewrite ?Ha, ?Hp).
  rewrite <- !append_assoc. apply rstrip_by_app_fixed; [done|].
  by eapply all_chars_impl.
Qed.

Lemma parse_marker_shape (s path : string) :
  parse_marker s = Some path →
  ∃ top body ext,
    path_shape top body ext ∧ path = top +:+ "/" +:+ body +:+ "." +:+ ext.
Proof.
  unfold parse_marker.
  destruct (parse_comment s ≫= parse_path) as [[m tail]|] eqn:Hc.
  - intros [= <-]. destruct (parse_comment s) as [u|]; [|done].
    simpl in Hc. by apply parse_path_shape in Hc as [_ ?].
  - destruct (parse_path s) as [[m tail]|] eqn:Hs; [|done].
    intros [= <-]. by apply parse_path_shape in Hs as [_ ?].
Qed.

Lemma normalize_path_fixed (line path : string) :
  find_file_path line = Some path → normalize_path path = path.
Proof.
  rewrite find_file_path_parse.
  intros (top & body & ext & Hshape & ->)%parse_marker_shape.
  unfold normalize_path, py_strip, py_strip_chars.
  rewrite (path_strip_fixed (char_in quotes)); [|done..|apply word_not_quote].
  apply path_strip_fixed; [done..|apply word_not_space].
Qed.

Lemma quote_cases (q : ascii) :
  char_in quotes q = true → q = "'"%char ∨ q = "034"%char.
Proof.
  unfold quotes, dq. simpl.
  destruct (Ascii.eqb_spec q "'"); [by left|].
  destruct (Ascii.eqb_spec q "034"); [by right | done].
Qed.

Lemma quoted_not_marker (q : ascii) (line u : string) :
  char_in quotes q = true →
  py_strip line = String q u
  ∨ (∃ tok, comment_token tok ∧ py_strip line = tok +:+ " " +:+ String q u) →
  is_marker line = false.
Proof.
  intros Hq%quote_cases Hquoted. apply not_true_is_false.
  rewrite is_marker_shape.
  intros [(tok' & u' & Htok' & Hs & Hpath) | Hpath].
  - destruct Hquoted as [Hl | (tok & Htok & Hl)]; rewrite Hl in Hs.
    + by destruct Hq as [-> | ->], Htok' as [-> | ->].
    + destruct Htok as [-> | ->], Htok' as [-> | ->]; try done;
        injection Hs as <-;
        by destruct Hq as [-> | ->],
             Hpath as (top & ? & ? & ? & ([-> | ->] & _) & ?).
  - destruct Hpath as (top & body & ext & tail & (Htop & _) & Hs).
    destruct Hquoted as [Hl | (tok & Htok & Hl)]; rewrite Hl in Hs.
    + by destruct Hq as [-> | ->], Htop as [-> | ->].
    + by destruct Htok as [-> | ->], Htop as [-> | ->].
Qed.

(** C4, as the code has it: the path of every pair is normalized, quotation
    marks first and whitespace next, before it is joined with the
    destination directory, and the normalization takes the quoted
    [apps/a/b.ts] to [apps/a/b.ts].  But a line whose path starts with a
    quotation mark, single or double, is not a marker, so no extracted path
    has a quotation mark or whitespace at either end and the normalization
    leaves every extracted path as it is. *)
Theorem normalize_extracted :
  normalize_path quoted_path = "apps/a/b.ts"
  ∧ normalize_path ("'apps/a/b.ts'") = "apps/a/b.ts"
  ∧ (∀ (q : ascii) line u,
       char_in quotes q = true →
       py_strip line = String q u
       ∨ (∃ tok, comment_token tok
                 ∧ py_strip line = tok +:+ " " +:+ String q u) →
       is_marker line = false)
  ∧ (∀ content pair,
       pair ∈ extract_file_info content → normalize_path pair.1 = pair.1)
  ∧ (∀ dest_dir content,
       output_paths dest_dir content
       = map (λ pair, path_join dest_dir pair.1) (extract_file_info content)).
Proof.
  split_and!.
  - vm_compute. reflexivity.
  - vm_compute. reflexivity.
  - apply quoted_not_marker.
  - intros content pair Hpair.
    destruct (pairs_produced content) as (nums & Hprod & _).
    apply list_elem_of_lookup in Hpair as [k Hk].
    destruct (Forall2_lookup_r _ _ _ _ _ Hprod Hk) as (n & _ & l & _ & _ & Hl).
    by eapply normalize_path_fixed.
  - intros dest_dir content. unfold output_paths.
    apply map_ext_in. intros pair Hpair%list_elem_of_In. f_equal.
    destruct (pairs_produced content) as (nums & Hprod & _).
    apply list_elem_of_lookup in Hpair as [k Hk].
    destruct (Forall2_lookup_r _ _ _ _ _ Hprod Hk) as (n & _ & l & _ & _ & Hl).
    by eapply normalize_path_fixed.
Qed.

Lemma normalize_extracted_witness :
  is_marker ("// " +:+ quoted_path) = false
  ∧ is_marker "'apps/a/b.ts'" = false
  ∧ normalize_path "apps/web/src/util.ts" = "apps/web/src/util.ts".
Proof.
  destruct normalize_extracted as (_ & _ & Hquoted & Hfixed & _). split_and!.
  - apply (Hquoted "034"%char _ ("apps/a/b.ts" +:+ dq)); [reflexivity|].
    right. exists "//". split; [by left | vm_compute; reflexivity].
  - apply (Hquoted "'"%char _ "apps/a/b.ts'"); [reflexivity|].
    left. vm_compute. reflexivity.
  - apply (Hfixed scenario ("apps/web/src/util.ts", "export const x = 1;")).
    vm_compute. apply list_elem_of_further, list_elem_of_here.
Defined.

(** C4 as stated fails: the document whose marker has its path in quotation
    marks produces no pair at all, hence no output path [apps/a/b.ts]. *)
Lemma quoted_marker_counterexample :
  extract_file_info quoted_document = []
  ∧ ¬ path_join "out" "apps/a/b.ts" ∈ output_paths "out" quoted_document.
Proof.
  split; [vm_compute; reflexivity|].
  assert (output_paths "out" quoted_document = []) as ->
    by (vm_compute; reflexivity).
  apply not_elem_of_nil.
Qed.

(** ** Two adjacent markers *)

(** A marker line is skipped by the inner loop exactly when it has the
    comment form. *)
Lemma marker_skippable (line : string) :
  is_marker line = true →
  skippable line
  = bool_decide (is_Some (re_match comment_pattern (py_strip line))).
Proof.
  unfold is_marker, skippable, startswith.
  rewrite find_file_path_parse, re_match_comment.
  set (s := py_strip line). unfold parse_marker, parse_comment.
  destruct (strip_prefix "// " s) as [u|] eqn:H1.
  - apply strip_prefix_app in H1 as ->. simpl.
    by destruct (parse_path u) as [[m tail]|].
  - destruct (strip_prefix "# " s) as [u|] eqn:H2.
    + apply strip_prefix_app in H2 as ->. simpl.
      by destruct (parse_path u) as [[m tail]|].
    + simpl. destruct (parse_path s) as [[m tail]|] eqn:Hs; [|done].
      intros _.
      apply parse_path_shape in Hs
        as (-> & top & body & ext & ([-> | ->] & _) & ->); done.
Qed.

(** What the loop does with two adjacent markers, in full. *)
Lemma adjacent_markers_exact (content : string) (before after : list string)
    (m1 m2 : string) :
  py_split newline content = before ++ m1 :: m2 :: after →
  Forall (λ l, is_marker l = false) before →
  is_marker m1 = true → is_marker m2 = true →
  Forall (λ l, is_marker l = false) (skip_lines after) →
  ∃ p1 p2,
    find_file_path m1 = Some p1 ∧ find_file_path m2 = Some p2
    ∧ extract_file_info content
      = if skippable m2
        then last_pair p1 (skip_lines after)
        else (p1, "") :: last_pair p2 (skip_lines after).
Proof.
  intros Hsplit Hbefore Hm1 Hm2 Hafter.
  destruct (is_marker_path m1 Hm1) as (p1 & Hfind1 & Hp1).
  destruct (is_marker_path m2 Hm2) as (p2 & Hfind2 & Hp2).
  exists p1, p2. split_and!; [done..|].
  rewrite extract_scan, Hsplit, scan_prefix by done.
  simpl. fold (is_marker m1) (is_marker m2). rewrite Hm1, Hm2, Hfind1, Hfind2.
  destruct (skippable m2).
  - rewrite scan_skipping, scan_open, final_open by done. done.
  - rewrite scan_skipping, scan_open, final_open by done.
    simpl. by rewrite Hp1.
Qed.

(** With two adjacent bare markers the marker branch, which does not look at
    the accumulator, emits the first path with empty content. *)
Example adjacent_bare_emits_empty :
  extract_file_info adjacent_bare
  = [("apps/a/x.ts", ""); ("apps/b/y.ts", "body")].
Proof. vm_compute. reflexivity. Qed.

(** C1, as the code has it, for two adjacent markers with no marker before
    them and none among the lines collected after them:
    - a second marker of the comment form is a comment line for the inner
      loop, which skips it: the first path stays open and gets the lines
      that follow, the second path never appears;
    - a second marker of the bare form becomes the open path, and whatever
      precedes its pair in the result belongs to the first path;
    - in both cases the path left open is dropped at the end of the input
      when no line was collected for it. *)
Theorem adjacent_markers (content : string) (before after : list string)
    (m1 m2 : string) :
  py_split newline content = before ++ m1 :: m2 :: after →
  Forall (λ l, is_marker l = false) before →
  is_marker m1 = true → is_marker m2 = true →
  Forall (λ l, is_marker l = false) (skip_lines after) →
  ∃ p1 p2,
    find_file_path m1 = Some p1 ∧ find_file_path m2 = Some p2
    ∧ skippable m2
      = bool_decide (is_Some (re_match comment_pattern (py_strip m2)))
    ∧ if skippable m2
      then extract_file_info content = last_pair p1 (skip_lines after)
      else ∃ first,
             Forall (λ pair, pair.1 = p1) first
             ∧ extract_file_info content
               = first ++ last_pair p2 (skip_lines after).
Proof.
  intros Hsplit Hbefore Hm1 Hm2 Hafter.
  destruct (adjacent_markers_exact content before after m1 m2)
    as (p1 & p2 & Hfind1 & Hfind2 & Hextract); [done..|].
  exists p1, p2. split_and!; [done..|by apply marker_skippable|].
  destruct (skippable m2); [done|].
  exists [(p1, "")]. split; [by repeat constructor | done].
Qed.

Lemma adjacent_markers_witness :
  ∃ p1 p2,
    find_file_path "// apps/a/x.ts" = Some p1
    ∧ find_file_path "// apps/b/y.ts" = Some p2
    ∧ skippable "// apps/b/y.ts"
      = bool_decide
          (is_Some (re_match comment_pattern (py_strip "// apps/b/y.ts")))
    ∧ if skippable "// apps/b/y.ts"
      then extract_file_info adjacent_comments
           = last_pair p1 (skip_lines ["body"])
      else ∃ first,
             Forall (λ pair, pair.1 = p1) first
             ∧ extract_file_info adjacent_comments
               = first ++ last_pair p2 (skip_lines ["body"]).
Proof.
  apply (adjacent_markers adjacent_comments [] ["body"]).
  - vm_compute. reflexivity.
  - constructor.
  - vm_compute. reflexivity.
  - vm_compute. reflexivity.
  - each_line.
Defined.

(** C1 as stated fails: of two adjacent comment markers the first path is
    not dropped, it gets the content, and the second path is the one that
    is lost. *)
Lemma adjacent_markers_counterexample :
  extract_file_info adjacent_comments = [("apps/a/x.ts", "body")]
  ∧ ¬ ("apps/a/x.ts" ∉ (extract_file_info adjacent_comments).*1)
  ∧ "apps/b/y.ts" ∉ (extract_file_info adjacent_comments).*1.
Proof.
  assert (extract_file_info adjacent_comments = [("apps/a/x.ts", "body")])
    as -> by (vm_compute; reflexivity).
  split_and!; [done| |].
  - intros Hdropped. apply Hdropped. apply list_elem_of_here.
  - simpl. intros Hin%list_elem_of_singleton. discriminate.
Qed.

(** ** The organizer *)

Section Behaviour.
Variable E : env.
Context {A B : Type}.

Lemma behaves_ret (a : A) : behaves E (ret a) (inr a) [] [].
Proof. intros [t c]. unfold ret. simpl. by rewrite app_nil_r. Qed.

Lemma behaves_raise (e : string) : behaves E (@raise A e) (inl e) [] [].
Proof. intros [t c]. unfold raise. simpl. by rewrite app_nil_r. Qed.

Lemma behaves_bind_ok (m : io A) (f : A → io B) (a : A) (r : string + B)
    ws ws' out out' :
  behaves E m (inr a) ws out → behaves E (f a) r ws' out' →
  behaves E (bind m f) r (ws ++ ws') (out ++ out').
Proof.
  intros Hm Hf w. unfold bind. rewrite Hm, Hf. simpl.
  unfold apply_writes. by rewrite foldl_app, app_assoc.
Qed.

Lemma behaves_bind_raise (m : io A) (f : A → io B) (e : string) ws out :
  behaves E m (inl e) ws out → behaves E (bind m f) (inl e) ws out.
Proof. intros Hm w. unfold bind. by rewrite Hm. Qed.
End Behaviour.

Lemma behaves_print (E : env) (line : string) : behaves E (print line) (inr ()) [] [line].
Proof. by intros [t c]. Qed.

Lemma behaves_try_ok (E : env) (body : io unit) (handler : string → io unit) ws out :
  behaves E body (inr ()) ws out →
  behaves E (try_except body handler) (inr ()) ws out.
Proof. intros Hbody w. unfold try_except. by rewrite Hbody. Qed.

Lemma behaves_try_raise (E : env) (body : io unit) (handler : string → io unit)
    (e : string) (r : string + unit) ws ws' out out' :
  behaves E body (inl e) ws out → behaves E (handler e) r ws' out' →
  behaves E (try_except body handler) r (ws ++ ws') (out ++ out').
Proof.
  intros Hbody Hhandler w. unfold try_except. rewrite Hbody, Hhandler. simpl.
  unfold apply_writes. by rewrite foldl_app, app_assoc.
Qed.

Lemma behaves_for_each (E : env) {A : Type} (xs : list A) (body : A → io unit)
    (W : A → list (string * string)) (O : A → list string) :
  (∀ x, behaves E (body x) (inr ()) (W x) (O x)) →
  behaves E (for_each xs body) (inr ()) (flat_map W xs) (flat_map O xs).
Proof.
  intros Hbody. induction xs as [|x xs IH]; simpl.
  - apply behaves_ret.
  - eapply behaves_bind_ok; [apply Hbody | apply IH].
Qed.

Section Run.
Variable E : env.

Lemma behaves_write_extracted (dest_dir : string) (item : string * string) :
  let full_path := path_join dest_dir (normalize_path item.1) in
  match refusal E full_path with
  | Some e => behaves E (write_extracted E dest_dir item) (inl e) [] []
  | None =>
      behaves E (write_extracted E dest_dir item) (inr ())
        [(full_path, item.2)] ["Created file: " +:+ full_path]
  end.
Proof.
  unfold refusal, write_extracted, makedirs, write_file. simpl.
  destruct (makedirs_error E _) as [e|].
  - apply behaves_bind_raise, behaves_raise.
  - destruct (write_error E _) as [e|].
    + apply (behaves_bind_ok E _ _ () _ [] [] [] []); [apply behaves_ret|].
      apply behaves_bind_raise, behaves_raise.
    + apply (behaves_bind_ok E _ _ () _ [] [_] [] [_]); [apply behaves_ret|].
      apply (behaves_bind_ok E _ _ () _ [_] [] [] [_]); [|apply behaves_print].
      by intros [t c]; simpl; rewrite app_nil_r.
Qed.

Lemma behaves_outcome (dest_dir : string) (files_data : list (string * string)) :
  behaves E (for_each files_data (write_extracted E dest_dir))
    (outcome E dest_dir files_data).1.1
    (outcome E dest_dir files_data).1.2
    (outcome E dest_dir files_data).2.
Proof.
  induction files_data as [|item more IH]; simpl.
  - apply behaves_ret.
  - pose proof (behaves_write_extracted dest_dir item) as Hitem.
    simpl in Hitem. destruct (refusal E _) as [e|].
    + by apply behaves_bind_raise.
    + destruct (outcome E dest_dir more) as [[r ws] out]. simpl in *.
      apply (behaves_bind_ok E _ _ () _ [_] ws [_] out); done.
Qed.

Lemma behaves_process_file (dest_dir file_path : string) :
  behaves E (process_file E file_path dest_dir)
    (doc_outcome E dest_dir file_path).1.1
    (doc_outcome E dest_dir file_path).1.2
    (doc_outcome E dest_dir file_path).2.
Proof.
  unfold process_file, doc_outcome, read_file.
  destruct (read_text E file_path) as [e|content]; simpl.
  - apply behaves_bind_raise, behaves_raise.
  - apply (behaves_bind_ok E _ _ content _ [] _ [] _); [apply behaves_ret|].
    apply behaves_outcome.
Qed.

(** No exception leaves the guarded processing of a document. *)
Lemma behaves_guarded (dest_dir file_path : string) :
  behaves E (guarded E dest_dir file_path) (inr ())
    (doc_writes E dest_dir file_path) (report E dest_dir file_path).
Proof.
  pose proof (behaves_process_file dest_dir file_path) as Hdoc.
  unfold guarded, doc_writes, report.
  destruct (doc_outcome E dest_dir file_path) as [[[e|[]] ws] out];
    simpl in *.
  - rewrite <- (app_nil_r ws).
    eapply behaves_try_raise; [done | apply behaves_print].
  - rewrite app_nil_r. by apply behaves_try_ok.
Qed.

Lemma behaves_documents (source_dir dest_dir : string) :
  behaves E
    (for_each (os_walk E source_dir) (λ '(root, files),
       for_each files (λ file, guarded E dest_dir (path_join root file))))
    (inr ())
    (flat_map (doc_writes E dest_dir) (documents E source_dir))
    (flat_map (report E dest_dir) (documents E source_dir)).
Proof.
  unfold documents.
  induction (os_walk E source_dir) as [|[root files] more IH]; simpl.
  - apply behaves_ret.
  - rewrite !flat_map_app.
    eapply behaves_bind_ok; [|apply IH].
    induction files as [|file files IHf]; simpl.
    + apply behaves_ret.
    + eapply behaves_bind_ok; [apply behaves_guarded | apply IHf].
Qed.

Lemma behaves_main (source_dir dest_dir : string) :
  match makedirs_error E dest_dir with
  | Some e => behaves E (main E source_dir dest_dir) (inl e) [] []
  | None =>
      behaves E (main E source_dir dest_dir) (inr ())
        (run_writes E source_dir dest_dir)
        (flat_map (report E dest_dir) (documents E source_dir)
         ++ [summary dest_dir])
  end.
Proof.
  unfold main, run_writes, makedirs.
  destruct (makedirs_error E dest_dir) as [e|].
  - apply behaves_bind_raise, behaves_raise.
  - intros w. unfold bind at 1. unfold ret.
    unfold bind. rewrite behaves_documents, (behaves_print E). simpl.
    by rewrite <- app_assoc.
Qed.
End Run.

(** C7: in a run of [main] every exception raised while one document is
    processed, be it by reading it or by writing one of its outputs, ends
    in the handler of that document: the guarded processing returns
    normally, the console gets the line that names the document and the
    error, and the loop goes on to the next document, so that the console
    holds the report of every document in the order of the walk and the
    final summary.  The only exception that leaves [main] is the one raised
    when the destination root cannot be created, before any document is
    read. *)
Theorem main_isolates_failures (E : env) (source_dir dest_dir : string)
    (w : world) :
  match makedirs_error E dest_dir with
  | Some e => main E source_dir dest_dir w = (inl e, w)
  | None =>
      ∃ t, main E source_dir dest_dir w
           = (inr (),
              World t (console w
                       ++ flat_map (report E dest_dir) (documents E source_dir)
                       ++ [summary dest_dir]))
  end
  ∧ (∀ file_path w0, (guarded E dest_dir file_path w0).1 = inr ())
  ∧ (∀ file_path e w0,
       (process_file E file_path dest_dir w0).1 = inl e →
       last (report E dest_dir file_path)
       = Some ("Error processing " +:+ file_path +:+ ": " +:+ e)).
Proof.
  split_and!.
  - pose proof (behaves_main E source_dir dest_dir) as Hmain.
    destruct (makedirs_error E dest_dir) as [e|].
    + rewrite Hmain. destruct w as [t c]. simpl. by rewrite app_nil_r.
    + rewrite Hmain. eauto.
  - intros file_path w0. by rewrite behaves_guarded.
  - intros file_path e w0. rewrite behaves_process_file. simpl.
    unfold report. intros ->. apply last_snoc.
Qed.

Lemma main_isolates_failures_witness :
  last (report demo_env "out" "in/b.txt")
  = Some "Error processing in/b.txt: invalid start byte".
Proof.
  destruct (main_isolates_failures demo_env "in" "out" empty_world)
    as (_ & _ & Hreport).
  apply (Hreport "in/b.txt" "invalid start byte" empty_world).
  vm_compute. reflexivity.
Defined.

(** The run of the small environment: the unreadable document and the
    refused output file are reported, and the documents after them are
    processed all the same. *)
Example demo_run :
  console (main demo_env "in" "out" empty_world).2
  = ["Created file: out/apps/web/src/index.ts";
     "Created file: out/apps/web/src/util.ts";
     "Error processing in/b.txt: invalid start byte";
     "Created file: out/apps/a/x.ts";
     "Error processing in/sub/c.txt: Is a directory";
     summary "out"]
  ∧ main demo_env "in" "locked" empty_world
    = (inl "Permission denied", empty_world).
Proof.
  split.
  - pose proof (behaves_main demo_env "in" "out") as Hmain.
    simpl in Hmain. rewrite Hmain. vm_compute. reflexivity.
  - pose proof (behaves_main demo_env "in" "locked") as Hmain.
    simpl in Hmain. by rewrite Hmain.
Qed.

(** ** Running the organizer twice *)

Lemma apply_writes_lookup (E : env) (ws : list (string * string))
    (t : gmap string string) (file : string) :
  apply_writes E ws t !! file
  = match last_write E file ws with
    | Some content => Some content
    | None => t !! file
    end.
Proof.
  revert t. induction ws as [|[q content] more IH]; intros t; [done|].
  unfold apply_writes in *. simpl. rewrite IH.
  destruct (last_write E file more); [done|].
  rewrite lookup_insert. by destruct (decide (file_of E q = file)).
Qed.

Lemma apply_writes_twice (E : env) (ws : list (string * string))
    (t : gmap string string) :
  apply_writes E ws (apply_writes E ws t) = apply_writes E ws t.
Proof.
  apply map_eq. intros file. rewrite !apply_writes_lookup.
  by destruct (last_write E file ws).
Qed.

Lemma apply_writes_same_files (E E' : env) (ws : list (string * string))
    (t : gmap string string) :
  (∀ path, file_of E' path = file_of E path) →
  apply_writes E' ws t = apply_writes E ws t.
Proof.
  intros Hfiles. revert t. unfold apply_writes.
  induction ws as [|item more IH]; intros t; [done|].
  simpl. by rewrite Hfiles, IH.
Qed.

Lemma main_tree (E : env) (source_dir dest_dir : string) (w : world) :
  tree (main E source_dir dest_dir w).2
  = apply_writes E (run_writes E source_dir dest_dir) (tree w).
Proof.
  pose proof (behaves_main E source_dir dest_dir) as Hmain.
  unfold run_writes in *.
  destruct (makedirs_error E dest_dir); by rewrite Hmain.
Qed.

Lemma outcome_same_system (E E' : env) (dest_dir : string)
    (files_data : list (string * string)) :
  same_system E E' →
  outcome E' dest_dir files_data = outcome E dest_dir files_data.
Proof.
  intros (_ & Hmake & Hwrite).
  induction files_data as [|item more IH]; [done|].
  simpl. unfold refusal. by rewrite Hmake, Hwrite, IH.
Qed.

(** With the same source directory contents and the same system, a run
    sets out the same writes. *)
Lemma run_writes_same (E E' : env) (source_dir dest_dir : string) :
  same_source E E' source_dir → same_system E E' →
  run_writes E' source_dir dest_dir = run_writes E source_dir dest_dir.
Proof.
  intros [Hwalk Hread] Hsystem. unfold run_writes.
  pose proof Hsystem as (Hfiles & Hmake & Hwrite).
  rewrite Hmake. destruct (makedirs_error E dest_dir); [done|].
  assert (documents E' source_dir = documents E source_dir) as ->
    by (unfold documents; by rewrite Hwalk).
  induction (documents E source_dir) as [|doc more IH]; [done|].
  simpl. f_equal.
  - unfold doc_writes, doc_outcome.
    rewrite Hread by apply list_elem_of_here.
    destruct (read_text E doc); [done|].
    by rewrite (outcome_same_system E E').
  - apply IH. intros doc' Hin. apply Hread. by apply list_elem_of_further.
Qed.

(** C9: running [main] a second time, in an environment with the same
    source directory contents (the walk yields the same documents and each
    reads the same) and the same system (the paths name the same files, the
    same operations are refused), from the tree the first run left, gives
    the same content at every file as the first run did.  What a run writes
    is a list of (path, content) that the input documents and the system
    determine, whatever the destination holds; the second run sets out the
    same list.  After a run each file has the content of the last write to a
    path that names it, and its former content where the run wrote to no
    such path. *)
Theorem organize_twice (E E' : env) (source_dir dest_dir : string)
    (w : world) :
  same_source E E' source_dir → same_system E E' →
  let once := (main E source_dir dest_dir w).2 in
  let twice := (main E' source_dir dest_dir once).2 in
  run_writes E' source_dir dest_dir = run_writes E source_dir dest_dir
  ∧ tree twice = tree once
  ∧ tree once = apply_writes E (run_writes E source_dir dest_dir) (tree w)
  ∧ ∀ file,
      tree once !! file
      = match last_write E file (run_writes E source_dir dest_dir) with
        | Some content => Some content
        | None => tree w !! file
        end.
Proof.
  intros Hsource Hsystem. simpl. rewrite !main_tree.
  rewrite (run_writes_same E E') by done.
  rewrite (apply_writes_same_files E E') by apply Hsystem.
  split_and!.
  - done.
  - apply apply_writes_twice.
  - done.
  - intros file. apply apply_writes_lookup.
Qed.

Lemma organize_twice_witness :
  tree (main demo_env_again "in" "out"
          (main demo_env "in" "out" empty_world).2).2
  = tree (main demo_env "in" "out" empty_world).2.
Proof.
  refine (proj1 (proj2
    (organize_twice demo_env demo_env_again "in" "out" empty_world _ _))).
  - split; [vm_compute; reflexivity|].
    intros doc Hin. vm_compute in Hin.
    apply list_elem_of_In in Hin. simpl in Hin.
    destruct Hin as [<-|[<-|[<-|[]]]]; vm_compute; reflexivity.
  - split_and!; intros path; reflexivity.
Defined.

(** In the small environment the two readable documents write three
    files. *)
Example demo_tree :
  run_writes demo_env "in" "out"
  = [("out/apps/web/src/index.ts", "console.log(" +:+ dq +:+ "hi" +:+ dq +:+ ");");
     ("out/apps/web/src/util.ts", "export const x = 1;");
     ("out/apps/a/x.ts", "")]
  ∧ tree (main demo_env "in" "out" empty_world).2 !! "out/apps/a/x.ts"
    = Some "".
Proof.
  split; [vm_compute; reflexivity|].
  rewrite main_tree, apply_writes_lookup. vm_compute. reflexivity.
Qed.

(** Two paths that name one file: the later write wins, under either
    name. *)
Example two_names_one_file :
  run_writes two_names_env "in" "out"
  = [("out/apps/a/x.ts", "one"); ("out/apps/a//x.ts", "two")]
  ∧ file_of two_names_env "out/apps/a//x.ts"
    = file_of two_names_env "out/apps/a/x.ts"
  ∧ tree (main two_names_env "in" "out" empty_world).2
      !! file_of two_names_env "out/apps/a/x.ts"
    = Some "two".
Proof.
  split_and!; [vm_compute; reflexivity..|].
  rewrite main_tree, apply_writes_lookup. vm_compute. reflexivity.
Qed.

(** When the source directory has changed between the runs, the second run
    may leave another tree. *)
Example changed_source_other_tree :
  same_system demo_env demo_env_changed
  ∧ tree (main demo_env "in" "out" empty_world).2 !! "out/apps/c/z.ts" = None
  ∧ tree (main demo_env_changed "in" "out"
            (main demo_env "in" "out" empty_world).2).2 !! "out/apps/c/z.ts"
    = Some "new".
Proof.
  split_and!.
  - split_and!; intros path; reflexivity.
  - rewrite main_tree, apply_writes_lookup. vm_compute. reflexivity.
  - rewrite !main_tree, !apply_writes_lookup. vm_compute. reflexivity.
Qed.

(** * Further properties of the extractor *)

(** ** What every pair looks like *)

(** A property of pairs that holds for every path a line can give, whatever
    was collected, holds for every pair of the result. *)
Lemma scan_Forall (P : string * string → Prop) (ls : list string)
    (sk : bool) (cf : option string) cc fd :
  (∀ l path collected,
     find_file_path l = Some path → P (path, joined collected)) →
  (∀ path collected, cf = Some path → P (path, joined collected)) →
  Forall P fd →
  Forall P (scan sk ls cf cc fd).
Proof.
  intros Hline. revert sk cf cc fd.
  assert (∀ cf cc fd,
            (∀ path collected, cf = Some path → P (path, joined collected)) →
            Forall P fd → Forall P (save_open cf cc fd)) as Hsave.
  { intros cf cc fd Hcf Hfd. unfold save_open.
    destruct cf as [path|]; [|done]. destruct (nonempty path); [|done].
    apply Forall_app. split; [done|]. constructor; [by apply Hcf | constructor]. }
  induction ls as [|l more IH]; intros sk cf cc fd Hcf Hfd; simpl.
  - unfold final. destruct (truthy cf && _); [by apply Hsave | done].
  - destruct (sk && skippable l); [by apply IH|].
    destruct (truthy (find_file_path l)); [|by apply IH].
    apply IH; [|by apply Hsave].
    intros path collected Hpath. by eapply Hline.
Qed.

Lemma extract_Forall (P : string * string → Prop) (content : string) :
  (∀ l path collected,
     find_file_path l = Some path → P (path, joined collected)) →
  Forall P (extract_file_info content).
Proof.
  intros Hline. rewrite extract_scan. by apply scan_Forall.
Qed.

(** X1: every path returned has the shape the patterns ask for: [apps] or
    [packages], a slash, word characters, slashes and hyphens, one dot and
    an extension of word characters.  So it is relative, it has exactly one
    dot, and no segment of it is [.] or [..]. *)
Theorem extracted_path_shape (content : string) :
  Forall (λ item, ∃ top body ext,
            path_shape top body ext
            ∧ item.1 = top +:+ "/" +:+ body +:+ "." +:+ ext)
    (extract_file_info content).
Proof.
  apply extract_Forall. intros l path collected Hpath. simpl.
  rewrite find_file_path_parse in Hpath. by apply parse_marker_shape in Hpath.
Qed.

(** X2: the output file of a pair is the destination directory followed by the
    path, with a slash between them unless the directory is empty or ends
    with one: the path never replaces the directory, as [os.path.join] would
    do with an absolute path. *)
Theorem output_under_dest (dest_dir content : string) :
  Forall (λ item,
            path_join dest_dir (normalize_path item.1)
            = dest_dir
              +:+ (if negb (nonempty dest_dir) || endswith_slash dest_dir
                   then "" else "/")
              +:+ item.1)
    (extract_file_info content).
Proof.
  apply extract_Forall. intros l path collected Hpath. simpl.
  rewrite (normalize_path_fixed l path Hpath).
  rewrite find_file_path_parse in Hpath.
  apply parse_marker_shape in Hpath as (top & body & ext & (Htop & _) & ->).
  unfold path_join.
  assert (startswith (top +:+ "/" +:+ body +:+ "." +:+ ext) "/" = false) as ->
    by (by destruct Htop as [-> | ->]).
  by destruct (negb (nonempty dest_dir) || endswith_slash dest_dir).
Qed.

(** ** Stripping *)

Lemma rstrip_by_twice (p : ascii → bool) (s : string) :
  rstrip_by p (rstrip_by p s) = rstrip_by p s.
Proof.
  induction s as [|c s IH]; [done|]. simpl.
  destruct (rstrip_by p s) as [|d r] eqn:Hr.
  - destruct (p c) eqn:Hc; simpl; [done | by rewrite Hc].
  - simpl in *. by rewrite IH.
Qed.

Lemma rstrip_by_head (p : ascii → bool) (c : ascii) (s : string) :
  p c = false → ∃ r, rstrip_by p (String c s) = String c r.
Proof.
  intros Hc. simpl. destruct (rstrip_by p s); rewrite ?Hc; eauto.
Qed.

Lemma lstrip_by_head (p : ascii → bool) (s : string) :
  lstrip_by p s = ""
  ∨ ∃ c r, lstrip_by p s = String c r ∧ p c = false.
Proof.
  induction s as [|c s IH]; [by left|]. simpl.
  destruct (p c) eqn:Hc; [done | right; eauto].
Qed.

Lemma strip_by_twice (p : ascii → bool) (s : string) :
  strip_by p (strip_by p s) = strip_by p s.
Proof.
  unfold strip_by.
  destruct (lstrip_by_head p s) as [-> | (c & r & -> & Hc)]; [done|].
  destruct (rstrip_by_head p c r Hc) as [r' Hr]. rewrite Hr.
  simpl lstrip_by. rewrite Hc, <- Hr. apply rstrip_by_twice.
Qed.

(** X3: the content of every pair is stripped: it neither starts nor ends with
    whitespace, so no written file ends with a newline. *)
Theorem extracted_content_stripped (content : string) :
  Forall (λ item, py_strip item.2 = item.2) (extract_file_info content).
Proof.
  apply extract_Forall. intros l path collected _. apply strip_by_twice.
Qed.

(** ** How many pairs, and which lines matter *)

Lemma save_open_length (cf : option string) cc fd :
  length (save_open cf cc fd) ≤ length fd + (if truthy cf then 1 else 0).
Proof.
  unfold save_open. destruct cf as [path|]; simpl; [|lia].
  destruct (nonempty path); [|lia]. rewrite length_app. simpl. lia.
Qed.

Lemma scan_length (ls : list string) (sk : bool) (cf : option string) cc fd :
  length (scan sk ls cf cc fd)
  ≤ length fd + (if truthy cf then 1 else 0)
    + length (List.filter is_marker ls).
Proof.
  revert sk cf cc fd. induction ls as [|l more IH]; intros sk cf cc fd; simpl.
  - unfold final. pose proof (save_open_length cf cc fd).
    destruct (truthy cf && _); lia.
  - destruct (sk && skippable l).
    + specialize (IH true cf cc fd). destruct (is_marker l); simpl; lia.
    + unfold is_marker at 1. 
      destruct (truthy (find_file_path l)) eqn:Hl.
      * specialize (IH true (find_file_path l) [] (save_open cf cc fd)).
        pose proof (save_open_length cf cc fd).
        rewrite Hl in IH. simpl. lia.
      * apply IH.
Qed.

(** X4: there are never more pairs than marker lines. *)
Theorem pairs_at_most_markers (content : string) :
  length (extract_file_info content)
  ≤ length (List.filter is_marker (py_split newline content)).
Proof. rewrite extract_scan. apply (scan_length _ false None [] []). Qed.

(** X5: lines before the first marker play no part: with or without them the
    result is the same. *)
Theorem preamble_ignored (content content' : string) (before : list string) :
  py_split newline content = before ++ py_split newline content' →
  Forall (λ l, is_marker l = false) before →
  extract_file_info content = extract_file_info content'.
Proof.
  intros Hsplit Hbefore. rewrite !extract_scan, Hsplit. by apply scan_prefix.
Qed.

Lemma preamble_ignored_witness :
  extract_file_info ("Here is the code:" +:+ NL +:+ NL +:+ scenario)
  = extract_file_info scenario.
Proof.
  apply (preamble_ignored _ _ ["Here is the code:"; ""]).
  - vm_compute. reflexivity.
  - each_line.
Defined.

Lemma scan_drop_skippable (pre rest : list string) (m c : string)
    (sk : bool) (cf : option string) cc fd :
  is_marker m = true → skippable c = true →
  scan sk (pre ++ m :: c :: rest) cf cc fd
  = scan sk (pre ++ m :: rest) cf cc fd.
Proof.
  intros Hm Hc. revert sk cf cc fd.
  induction pre as [|l pre IH]; intros sk cf cc fd; simpl.
  - fold (is_marker m). rewrite Hm, Hc. simpl.
    by destruct (sk && skippable m).
  - destruct (sk && skippable l); [apply IH|].
    destruct (truthy (find_file_path l)); apply IH.
Qed.

(** X6: a blank line or a comment line directly after a marker line can be
    removed without changing the result, wherever the marker stands. *)
Theorem line_after_marker_ignored (content content' : string)
    (pre rest : list string) (m c : string) :
  py_split newline content = pre ++ m :: c :: rest →
  py_split newline content' = pre ++ m :: rest →
  is_marker m = true → skippable c = true →
  extract_file_info content = extract_file_info content'.
Proof.
  intros Hsplit Hsplit' Hm Hc. rewrite !extract_scan, Hsplit, Hsplit'.
  by apply scan_drop_skippable.
Qed.

Lemma line_after_marker_ignored_witness :
  extract_file_info
    ("x" +:+ NL +:+ "apps/a/x.ts" +:+ NL +:+ "// about x" +:+ NL +:+ "body")
  = extract_file_info ("x" +:+ NL +:+ "apps/a/x.ts" +:+ NL +:+ "body").
Proof.
  apply (line_after_marker_ignored _ _ ["x"] ["body"] "apps/a/x.ts" "// about x");
    vm_compute; reflexivity.
Defined.

(** ** The path inside its line *)

Lemma lstrip_by_starts (p : ascii → bool) (s : string) :
  starts_in p (lstrip_by p s) = false.
Proof.
  induction s as [|c s IH]; [done|]. simpl.
  destruct (p c) eqn:Hc; [done | by simpl].
Qed.

Lemma parse_path_tail (s m tail : string) :
  parse_path s = Some (m, tail) → starts_in is_word tail = false.
Proof.
  unfold parse_path.
  destruct (parse_top s) as [[top t]|]; [|done].
  destruct t as [|sl [|d t]]; [done..|].
  destruct (Ascii.eqb sl "/" && is_path_char d); [|done].
  destruct (lstrip_by is_path_char t) as [|dot [|e u]]; [done..|].
  destruct (Ascii.eqb dot "." && is_word e); [|done].
  intros [= _ <-]. apply lstrip_by_starts.
Qed.

Lemma starts_in_false (p : ascii → bool) (s : string) :
  starts_in p s = false → take_while p s = "" ∧ lstrip_by p s = s.
Proof. destruct s as [|c s]; [done|]. simpl. by intros ->. Qed.

Lemma parse_path_exact (top body ext tail : string) :
  path_shape top body ext → starts_in is_word tail = false →
  parse_path (top +:+ "/" +:+ body +:+ "." +:+ ext +:+ tail)
  = Some (top +:+ "/" +:+ body +:+ "." +:+ ext, tail).
Proof.
  intros (Htop & Hb & Hball & He & Heall) Htail.
  destruct (starts_in_false _ _ Htail) as [Htake Hdrop].
  destruct body as [|d body]; [done|]. destruct ext as [|e ext]; [done|].
  simpl in Hball, Heall.
  apply andb_prop in Hball as [Hd Hbody]. apply andb_prop in Heall as [He' Hext].
  unfold parse_path.
  assert (parse_top (top +:+ "/" +:+ String d body +:+ "." +:+ String e ext +:+ tail)
          = Some (top, "/" +:+ String d body +:+ "." +:+ String e ext +:+ tail))
    as -> by (by destruct Htop as [-> | ->]).
  simpl. rewrite Hd, lstrip_by_app, take_while_app by done. simpl.
  change (is_path_char ".") with false. simpl. rewrite He'.
  rewrite (take_while_app is_word ext tail), (lstrip_by_app is_word ext tail)
    by done.
  by rewrite Htake, Hdrop, !append_nil_r.
Qed.

(** X7: a line gives the path [path] exactly when the stripped line is
    [path], at its start or after the comment token and one space, followed
    by a rest that does not begin with a word character, where [path] has
    the shape of a path: its only dot is the one of the extension.  So the
    path ends where the word characters of the first extension end, and
    whatever follows on the line, be it a second extension, is left out. *)
Theorem marker_path_in_line (line path : string) :
  find_file_path line = Some path ↔
  ∃ before tail top body ext,
    py_strip line = before +:+ path +:+ tail
    ∧ (before = "" ∨ before = "// " ∨ before = "# ")
    ∧ path_shape top body ext
    ∧ path = top +:+ "/" +:+ body +:+ "." +:+ ext
    ∧ starts_in is_word tail = false.
Proof.
  rewrite find_file_path_parse. set (s := py_strip line). split.
  - unfold parse_marker, parse_comment.
    destruct (strip_prefix "// " s) as [u|] eqn:H1.
    + assert (parse_path s = None) as Hs
        by (apply (parse_path_not_comment s u); unfold parse_comment;
            by rewrite H1).
      apply strip_prefix_app in H1. simpl mbind.
      destruct (parse_path u) as [[m tail]|] eqn:Hu; [|by rewrite Hs].
      intros [= <-]. pose proof (parse_path_tail _ _ _ Hu).
      apply parse_path_shape in Hu as (-> & top & body & ext & Hshape & ->).
      exists "// ", tail, top, body, ext. auto 10.
    + destruct (strip_prefix "# " s) as [u|] eqn:H2.
      * assert (parse_path s = None) as Hs
          by (apply (parse_path_not_comment s u); unfold parse_comment;
              by rewrite H1, H2).
        apply strip_prefix_app in H2. simpl mbind.
        destruct (parse_path u) as [[m tail]|] eqn:Hu; [|by rewrite Hs].
        intros [= <-]. pose proof (parse_path_tail _ _ _ Hu).
        apply parse_path_shape in Hu as (-> & top & body & ext & Hshape & ->).
        exists "# ", tail, top, body, ext. auto 10.
      * simpl mbind. destruct (parse_path s) as [[m tail]|] eqn:Hs; [|done].
        intros [= <-]. pose proof (parse_path_tail _ _ _ Hs).
        apply parse_path_shape in Hs as (Hs & top & body & ext & Hshape & ->).
        exists "", tail, top, body, ext. auto 10.
  - intros (before & tail & top & body & ext & Hs & Hbefore & Hshape & -> & Htail).
    pose proof (parse_path_exact top body ext tail Hshape Htail) as Hparse.
    assert ((top +:+ "/" +:+ body +:+ "." +:+ ext) +:+ tail
            = top +:+ "/" +:+ body +:+ "." +:+ ext +:+ tail) as Hassoc
      by (rewrite !append_assoc; simpl; by rewrite ?append_assoc).
    rewrite Hassoc in Hs. clearbody s. subst s.
    assert (parse_comment (top +:+ "/" +:+ body +:+ "." +:+ ext +:+ tail)
            = None) as Hbare
      by (by destruct Hshape as ([-> | ->] & _)).
    set (rest := top +:+ "/" +:+ body +:+ "." +:+ ext +:+ tail) in *.
    unfold parse_marker.
    destruct Hbefore as [-> | [-> | ->]].
    + change ("" +:+ rest) with rest. rewrite Hbare. simpl. by rewrite Hparse.
    + change (parse_comment ("// " +:+ rest)) with (Some rest).
      simpl mbind. by rewrite Hparse.
    + change (parse_comment ("# " +:+ rest)) with (Some rest).
      simpl mbind. by rewrite Hparse.
Qed.

Lemma marker_path_in_line_witness :
  find_file_path "  // apps/web/a.test.ts (entry)" = Some "apps/web/a.test".
Proof.
  apply (marker_path_in_line "  // apps/web/a.test.ts (entry)").
  exists "// ", ".ts (entry)", "apps", "web/a", "test".
  split_and!; [vm_compute; reflexivity|auto| |reflexivity|reflexivity].
  split_and!; [by left|reflexivity..].
Defined.

(** ** Whitespace around a line *)

Lemma rstrip_by_all (p : ascii → bool) (s : string) :
  all_chars p s = true → rstrip_by p s = "".
Proof.
  induction s as [|c s IH]; [done|]. simpl.
  intros [Hc Hs]%andb_prop. by rewrite IH, Hc.
Qed.

Lemma rstrip_by_app_all (p : ascii → bool) (s b : string) :
  all_chars p b = true → rstrip_by p (s +:+ b) = rstrip_by p s.
Proof.
  intros Hb. induction s as [|c s IH]; simpl.
  - by apply rstrip_by_all.
  - by rewrite IH.
Qed.

Lemma lstrip_by_app_all (p : ascii → bool) (s b : string) :
  all_chars p b = true →
  rstrip_by p (lstrip_by p (s +:+ b)) = rstrip_by p (lstrip_by p s).
Proof.
  intros Hb. induction s as [|c s IH]; simpl.
  - rewrite rstrip_by_all; [done|].
    clear -Hb. induction b as [|c b IH]; [done|].
    simpl in *. apply andb_prop in Hb as [-> Hb]. by apply IH.
  - destruct (p c); [done|].
    change (String c (s +:+ b)) with (String c s +:+ b).
    by apply rstrip_by_app_all.
Qed.

Lemma strip_by_pad (p : ascii → bool) (a s b : string) :
  all_chars p a = true → all_chars p b = true →
  strip_by p (a +:+ s +:+ b) = strip_by p s.
Proof.
  intros Ha Hb. unfold strip_by.
  by rewrite lstrip_by_app, lstrip_by_app_all.
Qed.

(** X8: whitespace before and after a line, such as indentation or the carriage
    return of a CRLF line end, changes neither whether the line is a marker,
    nor its path, nor whether the inner loop skips it. *)
Theorem line_whitespace_ignored (a line b : string) :
  all_chars py_isspace a = true → all_chars py_isspace b = true →
  find_file_path (a +:+ line +:+ b) = find_file_path line
  ∧ is_marker (a +:+ line +:+ b) = is_marker line
  ∧ skippable (a +:+ line +:+ b) = skippable line.
Proof.
  intros Ha Hb. unfold is_marker, find_file_path, skippable, py_strip.
  by rewrite strip_by_pad.
Qed.

Lemma line_whitespace_ignored_witness :
  find_file_path (tab +:+ "# apps/web/a.ts" +:+ String "013" "")
  = find_file_path "# apps/web/a.ts"
  ∧ is_marker (tab +:+ "# apps/web/a.ts" +:+ String "013" "")
    = is_marker "# apps/web/a.ts"
  ∧ skippable (tab +:+ "# apps/web/a.ts" +:+ String "013" "")
    = skippable "# apps/web/a.ts".
Proof.
  apply (line_whitespace_ignored tab "# apps/web/a.ts" (String "013" ""));
    vm_compute; reflexivity.
Defined.

(** ** A newline at the end of the text *)

Lemma py_split_nonempty (sep : ascii) (s : string) : py_split sep s ≠ [].
Proof.
  destruct s as [|c s]; [done|]. simpl.
  destruct (Ascii.eqb c sep); [done|]. by destruct (py_split sep s).
Qed.

Lemma py_split_snoc (s : string) :
  py_split newline (s +:+ NL) = py_split newline s ++ [""].
Proof.
  induction s as [|c s IH]; [done|]. simpl.
  destruct (Ascii.eqb c newline); [by rewrite IH|].
  rewrite IH. pose proof (py_split_nonempty newline s).
  by destruct (py_split newline s).
Qed.

Lemma py_join_snoc_blank (collected : list string) :
  collected ≠ [] →
  py_join NL (collected ++ [""]) = py_join NL collected +:+ NL.
Proof.
  induction collected as [|x [|y more] IH]; [done| |]; intros _.
  - done.
  - change (py_join NL ((x :: y :: more) ++ [""]))
      with (x +:+ NL +:+ py_join NL ((y :: more) ++ [""])).
    rewrite IH by done.
    change (py_join NL (x :: y :: more))
      with (x +:+ NL +:+ py_join NL (y :: more)).
    by rewrite !append_assoc.
Qed.

Lemma joined_snoc_blank (collected : list string) :
  collected ≠ [] → joined (collected ++ [""]) = joined collected.
Proof.
  intros Hne. unfold joined, py_strip. rewrite py_join_snoc_blank by done.
  apply (strip_by_pad py_isspace "" _ NL); done.
Qed.

(** Between two iterations of the outer loop an open path has collected a
    line, unless the inner loop has just run. *)
Lemma scan_blank_end (ls : list string) (sk : bool) (cf : option string) cc fd :
  sk = true ∨ truthy cf = false ∨ cc ≠ [] →
  scan sk (ls ++ [""]) cf cc fd = scan sk ls cf cc fd.
Proof.
  revert sk cf cc fd.
  induction ls as [|l more IH]; intros sk cf cc fd Hstate.
  - simpl. change (skippable "") with true.
    change (truthy (find_file_path "")) with false.
    destruct sk; [done|]. simpl. unfold final, collect.
    destruct Hstate as [?|[Hcf|Hcc]]; [done|by rewrite Hcf|].
    destruct (truthy cf) eqn:Hcf; [|done]. simpl.
    rewrite !bool_decide_true; [|done|by destruct cc].
    unfold save_open. destruct cf as [path|]; [|done].
    destruct (nonempty path); [|done]. by rewrite joined_snoc_blank.
  - simpl. destruct (sk && skippable l); [apply IH; auto|].
    destruct (truthy (find_file_path l)); [apply IH; auto|].
    apply IH. right. unfold collect.
    destruct (truthy cf); [right; by destruct cc | by left].
Qed.

(** X9: a newline added at the end of the text does not change the result. *)
Theorem trailing_newline_ignored (content : string) :
  extract_file_info (content +:+ NL) = extract_file_info content.
Proof.
  rewrite !extract_scan, py_split_snoc. apply scan_blank_end. auto.
Qed.

(** ** The content, verbatim *)

Lemma py_split_line (m body : string) :
  all_chars (λ c, negb (Ascii.eqb c newline)) m = true →
  py_split newline (m +:+ NL +:+ body) = m :: py_split newline body.
Proof.
  induction m as [|c m IH]; [done|]. simpl.
  intros [Hc Hm]%andb_prop. apply negb_true_iff in Hc.
  specialize (IH Hm). simpl in IH. by rewrite Hc, IH.
Qed.

Lemma py_join_split (s : string) : py_join NL (py_split newline s) = s.
Proof.
  induction s as [|c s IH]; [done|]. simpl.
  pose proof (py_split_nonempty newline s) as Hne.
  destruct (Ascii.eqb_spec c newline) as [->|Hc].
  - destruct (py_split newline s) as [|x more]; [done|].
    change (py_join NL ("" :: x :: more))
      with ("" +:+ NL +:+ py_join NL (x :: more)).
    by rewrite IH.
  - destruct (py_split newline s) as [|cur [|y more]]; [done| |].
    + simpl in *. by rewrite IH.
    + change (py_join NL (String c cur :: y :: more))
        with (String c (cur +:+ NL +:+ py_join NL (y :: more))).
      by rewrite <- IH.
Qed.

(** X10: when the text is a marker line followed by a body without markers whose
    first line is neither blank nor a comment, the content of the one pair
    is the body itself, stripped: the lines are joined back exactly as they
    were split. *)
Theorem content_verbatim (marker body : string) :
  all_chars (λ c, negb (Ascii.eqb c newline)) marker = true →
  is_marker marker = true →
  Forall (λ l, is_marker l = false) (py_split newline body) →
  skippable (hd "" (py_split newline body)) = false →
  ∃ path,
    find_file_path marker = Some path
    ∧ extract_file_info (marker +:+ NL +:+ body) = [(path, py_strip body)].
Proof.
  intros Hline Hmarker Hbody Hfirst.
  destruct (is_marker_path marker Hmarker) as (path & Hfind & Hpath).
  exists path. split; [done|].
  rewrite extract_scan, py_split_line by done.
  simpl. fold (is_marker marker). rewrite Hmarker, Hfind. simpl.
  pose proof (py_split_nonempty newline body) as Hne.
  pose proof (py_join_split body) as Hjoin.
  destruct (py_split newline body) as [|first more] eqn:Hsplit; [done|].
  simpl in Hfirst. rewrite scan_skipping. simpl. rewrite Hfirst.
  rewrite scan_open, final_open by done. simpl.
  unfold joined. by rewrite Hjoin.
Qed.

Lemma content_verbatim_witness :
  ∃ path,
    find_file_path "// apps/web/a.ts" = Some path
    ∧ extract_file_info
        ("// apps/web/a.ts" +:+ NL +:+ "let a = 1;" +:+ NL +:+ NL +:+ "  a += 1;" +:+ NL)
      = [(path, py_strip ("let a = 1;" +:+ NL +:+ NL +:+ "  a += 1;" +:+ NL))].
Proof.
  apply (content_verbatim "// apps/web/a.ts"
           ("let a = 1;" +:+ NL +:+ NL +:+ "  a += 1;" +:+ NL)).
  - vm_compute. reflexivity.
  - vm_compute. reflexivity.
  - each_line.
  - vm_compute. reflexivity.
Defined.

(** * Further properties of the organizer *)

Lemma outcome_prefix (E : env) (dest_dir : string)
    (files_data : list (string * string)) :
  let all :=
    map (λ item, (path_join dest_dir (normalize_path item.1), item.2))
      files_data in
  let '(r, ws, out) := outcome E dest_dir files_data in
  ws `prefix_of` all
  ∧ out = map created ws
  ∧ Forall (λ item, refusal E item.1 = None) ws
  ∧ match r with
    | inr _ => ws = all
    | inl e => ∃ failed, (ws ++ [failed]) `prefix_of` all
                         ∧ refusal E failed.1 = Some e
    end.
Proof.
  induction files_data as [|item more IH]; simpl.
  - split_and!; [done..|constructor|done].
  - destruct (refusal E _) as [e|] eqn:Hrefusal.
    + split_and!; [apply prefix_nil|done|constructor|].
      eexists (_, item.2). split; [|exact Hrefusal].
      simpl. apply prefix_cons, prefix_nil.
    + destruct (outcome E dest_dir more) as [[r ws] out]. simpl in IH.
      destruct IH as (Hprefix & -> & Hok & Hr). split_and!.
      * by apply prefix_cons.
      * done.
      * by constructor.
      * destruct r as [e|[]].
        -- destruct Hr as (failed & Hfailed & He). exists failed.
           split; [|done]. simpl. by apply prefix_cons.
        -- by rewrite Hr.
Qed.

(** X11: [process_file] on a readable document writes the extracted files
    in order and stops at the first one the operating system refuses: the
    files before it stay written and announced, one console line for each,
    and nothing after it is written.  Without a refusal all of them are
    written and the call returns normally. *)
Theorem process_file_outputs (E : env) (file_path dest_dir content : string)
    (w : world) :
  read_text E file_path = inr content →
  ∃ ws,
    ws `prefix_of` intended dest_dir content
    ∧ Forall (λ item, refusal E item.1 = None) ws
    ∧ tree (process_file E file_path dest_dir w).2
      = apply_writes E ws (tree w)
    ∧ console (process_file E file_path dest_dir w).2
      = console w ++ map created ws
    ∧ match (process_file E file_path dest_dir w).1 with
      | inr _ => ws = intended dest_dir content
      | inl e => ∃ failed, (ws ++ [failed]) `prefix_of` intended dest_dir content
                           ∧ refusal E failed.1 = Some e
      end.
Proof.
  intros Hread. rewrite (behaves_process_file E dest_dir file_path w).
  unfold doc_outcome. rewrite Hread. unfold intended.
  pose proof (outcome_prefix E dest_dir (extract_file_info content)) as Hout.
  simpl in Hout.
  destruct (outcome E dest_dir (extract_file_info content)) as [[r ws] out].
  destruct Hout as (Hprefix & -> & Hok & Hr).
  exists ws. by split_and!.
Qed.

Lemma process_file_outputs_witness :
  ∃ ws,
    ws `prefix_of` intended "out" adjacent_bare
    ∧ Forall (λ item, refusal demo_env item.1 = None) ws
    ∧ tree (process_file demo_env "in/sub/c.txt" "out" empty_world).2
      = apply_writes demo_env ws (tree empty_world)
    ∧ console (process_file demo_env "in/sub/c.txt" "out" empty_world).2
      = console empty_world ++ map created ws
    ∧ match (process_file demo_env "in/sub/c.txt" "out" empty_world).1 with
      | inr _ => ws = intended "out" adjacent_bare
      | inl e => ∃ failed, (ws ++ [failed]) `prefix_of` intended "out" adjacent_bare
                           ∧ refusal demo_env failed.1 = Some e
      end.
Proof.
  apply (process_file_outputs demo_env "in/sub/c.txt" "out" adjacent_bare).
  vm_compute. reflexivity.
Defined.

(** ** The directory of an output file *)

Lemma rstrip_by_app_keep (p : ascii → bool) (a b : string) :
  nonempty (rstrip_by p b) = true →
  rstrip_by p (a +:+ b) = a +:+ rstrip_by p b.
Proof.
  intros Hb. induction a as [|c a IH]; [done|]. simpl. rewrite IH.
  destruct (a +:+ rstrip_by p b) eqn:Hab; [|done].
  destruct a; [|done]. simpl in Hab. by rewrite Hab in Hb.
Qed.

Lemma all_chars_app (p : ascii → bool) (a b : string) :
  all_chars p (a +:+ b) = all_chars p a && all_chars p b.
Proof.
  induction a as [|c a IH]; [done|]. simpl. by rewrite IH, andb_assoc.
Qed.

Lemma nonempty_app_r (a b : string) :
  nonempty b = true → nonempty (a +:+ b) = true.
Proof. by destruct a. Qed.

Lemma dirname_under (prefix top rest : string) :
  top = "apps" ∨ top = "packages" →
  nonempty (dirname (prefix +:+ top +:+ "/" +:+ rest)) = true.
Proof.
  intros Htop. unfold dirname.
  set (q := λ c, negb (is_slash c)).
  destruct (rstrip_by_head q "/" rest eq_refl) as [r Hr].
  assert (rstrip_by q (prefix +:+ top +:+ "/" +:+ rest)
          = prefix +:+ top +:+ String "/" r) as ->.
  { rewrite <- (append_assoc prefix top ("/" +:+ rest)).
    rewrite (rstrip_by_app_keep q (prefix +:+ top) ("/" +:+ rest));
      [|by simpl in *; rewrite Hr].
    simpl in *. by rewrite Hr, append_assoc. }
  assert (nonempty (rstrip_by is_slash (top +:+ String "/" r)) = true) as Hkeep.
  { destruct Htop as [-> | ->].
    - destruct (rstrip_by_head is_slash "a" ("pps" +:+ String "/" r) eq_refl)
        as [r' Hr'].
      change ("apps" +:+ String "/" r) with (String "a" ("pps" +:+ String "/" r)).
      by rewrite Hr'.
    - destruct (rstrip_by_head is_slash "p" ("ackages" +:+ String "/" r) eq_refl)
        as [r' Hr'].
      change ("packages" +:+ String "/" r)
        with (String "p" ("ackages" +:+ String "/" r)).
      by rewrite Hr'. }
  assert (all_chars is_slash (prefix +:+ top +:+ String "/" r) = false) as ->.
  { rewrite !all_chars_app.
    assert (all_chars is_slash top = false) as ->
      by (by destruct Htop as [-> | ->]).
    by rewrite andb_false_r. }
  assert (nonempty (prefix +:+ top +:+ String "/" r) = true) as ->
    by (apply nonempty_app_r; by destruct Htop as [-> | ->]).
  simpl. rewrite rstrip_by_app_keep by done. by apply nonempty_app_r.
Qed.

(** X12: the directory [process_file] asks [os.makedirs] to create for an
    extracted pair is never the empty path, whatever the destination
    directory is. *)
Theorem makedirs_target_nonempty (dest_dir content : string) :
  Forall (λ item,
            nonempty (dirname (path_join dest_dir (normalize_path item.1)))
            = true)
    (extract_file_info content).
Proof.
  apply extract_Forall. intros l path collected Hpath. simpl.
  rewrite (normalize_path_fixed l path Hpath).
  rewrite find_file_path_parse in Hpath.
  apply parse_marker_shape in Hpath as (top & body & ext & (Htop & _) & ->).
  unfold path_join.
  assert (startswith (top +:+ "/" +:+ body +:+ "." +:+ ext) "/" = false) as ->
    by (by destruct Htop as [-> | ->]).
  destruct (negb (nonempty dest_dir) || endswith_slash dest_dir).
  - by apply (dirname_under dest_dir top).
  - rewrite <- (append_assoc dest_dir "/").
    by apply (dirname_under (dest_dir +:+ "/") top).
Qed.
